(** * easyjson/buffer: chunked serialization buffer, chunk pool and
      recyclable readers

    A shallow embedding of package [buffer] (chunk pool, [Buffer],
    [readCloser], [recyclable], [recyclableReadCloser]), the properties of
    its natural-language specification, and further properties of the
    package.

    Conventions of the embedding.
    - Go [int]/[int64] values are [Z].  Lengths and offsets of live slices
      are bounded by the address space, so sums of lengths are written
      without reduction; the computations on values that are not lengths
      (the doubling of a capacity in [ensureSpaceSlow] and [initBuffers],
      the atomic reference counter, the counts an [io.Writer] returns) are
      written with their 64-bit wrap-around [wrap64].
    - A [[]byte] is a [slice]: the visible elements and the capacity.  The
      nil slice is the empty slice of capacity 0.
    - A run-time panic is the result [Panic]; loops whose termination
      depends on the data take a fuel argument and give [OutOfFuel] when it
      is exhausted.
    - Package-level variables ([config], [buffers], the two [sync.Pool]s of
      structs) and the heap of [*recyclable] and [*recyclableReadCloser]
      objects form the [World] that every operation threads.  A [sync.Pool]
      is a free list that hands out the item put last (the order in which
      Go hands pooled items out, and that Go may drop pooled items at any
      time, are not modelled; the properties below are stated so that they
      do not rest on the order).  Atomic operations are executed one at a
      time.
    - Functions of the Go standard library that the package calls
      ([net.Buffers.WriteTo] and its [consume]) are modelled from the
      library's source, for a writer without vectored I/O. *)

From Stdlib Require Import ZArith List Lia.
From Stdlib Require Import Strings.Byte.
From stdpp Require Import base option list gmap.

Open Scope Z_scope.

(** ** Go run-time values *)

Inductive result (A : Type) : Type :=
  | Ok (a : A)
  | Panic
  | OutOfFuel.
Arguments Ok {A} a.
Arguments Panic {A}.
Arguments OutOfFuel {A}.

(** Two's-complement reduction of an integer to the range of [int64]. *)
Definition wrap64 (z : Z) : Z := (z + 2 ^ 63) mod 2 ^ 64 - 2 ^ 63.

Record slice : Type := mkSlice { elems : list byte; cap : Z }.

Definition len (s : slice) : Z := Z.of_nat (length (elems s)).
Definition blen (l : list byte) : Z := Z.of_nat (length l).

(** The nil slice. *)
Definition nil_slice : slice := mkSlice [] 0.

(** [make([]byte, 0, size)]; panics when [size] is negative. *)
Definition make (size : Z) : result slice :=
  if size <? 0 then Panic else Ok (mkSlice [] size).

(** [s[:0]] *)
Definition reslice0 (s : slice) : slice := mkSlice [] (cap s).

(** [s[off:]]; panics unless [0 <= off <= len(s)]. *)
Definition slice_from (s : list byte) (off : Z) : result (list byte) :=
  if (0 <=? off) && (off <=? blen s) then Ok (drop (Z.to_nat off) s) else Panic.

(** [s[:hi]] for [0 <= hi <= len(s)]; panics otherwise. *)
Definition slice_to (s : list byte) (hi : Z) : result (list byte) :=
  if (0 <=? hi) && (hi <=? blen s) then Ok (take (Z.to_nat hi) s) else Panic.

(** The capacity the Go run time picks when [append] has to reallocate is
    not part of this package; it is a parameter, known only to be large
    enough. *)
Class Runtime : Type := {
  growcap : Z -> Z -> Z;
  growcap_ge : forall old needed, needed <= growcap old needed
}.

(** [append(s, data...)] *)
Definition append `{!Runtime} (s : slice) (data : list byte) : slice :=
  let n := len s + blen data in
  if n <=? cap s then mkSlice (elems s ++ data) (cap s)
  else mkSlice (elems s ++ data) (growcap (cap s) n).

(** [copy(dst, src)] where [dst] has room for [room] bytes: the bytes
    copied. *)
Definition copy (room : Z) (src : list byte) : list byte :=
  take (Z.to_nat room) src.

(** Go [error] values met by this package: [nil] is [None]. *)
Inductive error : Type :=
  | io_EOF
  | closedErr
  | sink_err (code : Z).

(** [io.Writer]: [Write(p)] returns the count of bytes taken and an error,
    and moves the sink to a new state. *)
Class Writer (W : Type) : Type :=
  Write : W -> list byte -> (Z * option error) * W.

(** [io.Reader]: [Read(p)] for a destination of [room] bytes returns the
    count it reports, an error and the bytes it has stored at the front of
    [p], and moves the source to a new state. *)
Class Reader (R : Type) : Type :=
  io_Read : R -> Z -> (Z * option error * list byte) * R.

(** [s[lo:hi]] on an array or slice of length [len(s)]; panics unless
    [0 <= lo <= hi <= len(s)]. *)
Definition slice_between (s : list byte) (lo hi : Z) : result (list byte) :=
  if (0 <=? lo) && (lo <=? hi) && (hi <=? blen s)
  then Ok (take (Z.to_nat (hi - lo)) (drop (Z.to_nat lo) s))
  else Panic.

(** ** Package state *)

Record PoolConfig : Type := mkPoolConfig {
  StartSize : Z;
  PooledSize : Z;
  MaxSize : Z
}.

Definition loc : Type := positive.

(** The struct types of the two heap-allocated objects; their methods
    follow below, once the package state is defined. *)
Module recyclable_struct.
Record t : Type := mk {
  data : list slice;
  isRecycle : Z          (* atomic.Int64: the reference count *)
}.
Definition zero : t := mk [] 0.
End recyclable_struct.

Module recyclableReadCloser_struct.
Record t : Type := mk {
  bufs : option loc;     (* *recyclable, [None] is nil *)
  offset : Z;
  index : Z;
  offsetLen : Z;
  size : Z;
  isClose : bool;        (* atomic.Bool *)
  isRecycle : bool       (* atomic.Bool *)
}.
Definition zero : t := mk None 0 0 0 0 false false.
End recyclableReadCloser_struct.

Record World : Type := mkWorld {
  config : PoolConfig;
  buffers : gmap Z (list slice);
  recyclablePool : list loc;
  recyclableReadCloserPool : list loc;
  recyclables : gmap loc recyclable_struct.t;
  readers : gmap loc recyclableReadCloser_struct.t
}.

Definition set_config (c : PoolConfig) (w : World) : World :=
  mkWorld c (buffers w) (recyclablePool w) (recyclableReadCloserPool w)
          (recyclables w) (readers w).
Definition set_buffers (m : gmap Z (list slice)) (w : World) : World :=
  mkWorld (config w) m (recyclablePool w) (recyclableReadCloserPool w)
          (recyclables w) (readers w).
Definition set_recyclablePool (l : list loc) (w : World) : World :=
  mkWorld (config w) (buffers w) l (recyclableReadCloserPool w)
          (recyclables w) (readers w).
Definition set_recyclableReadCloserPool (l : list loc) (w : World) : World :=
  mkWorld (config w) (buffers w) (recyclablePool w) l
          (recyclables w) (readers w).
Definition set_recyclables (m : gmap loc recyclable_struct.t) (w : World) : World :=
  mkWorld (config w) (buffers w) (recyclablePool w) (recyclableReadCloserPool w)
          m (readers w).
Definition set_readers (m : gmap loc recyclableReadCloser_struct.t) (w : World) : World :=
  mkWorld (config w) (buffers w) (recyclablePool w) (recyclableReadCloserPool w)
          (recyclables w) m.

(** ** The monad of package operations: state and panics *)

Definition M (A : Type) : Type := World -> result (A * World).

Definition ret {A} (a : A) : M A := fun w => Ok (a, w).
Definition bind {A B} (m : M A) (k : A -> M B) : M B :=
  fun w => match m w with
           | Ok (a, w') => k a w'
           | Panic => Panic
           | OutOfFuel => OutOfFuel
           end.
Definition panic {A} : M A := fun _ => Panic.
Definition out_of_fuel {A} : M A := fun _ => OutOfFuel.
Definition modify (f : World -> World) : M unit := fun w => Ok (tt, f w).
Definition gets {A} (f : World -> A) : M A := fun w => Ok (f w, w).
Definition lift {A} (r : result A) : M A :=
  fun w => match r with
           | Ok a => Ok (a, w)
           | Panic => Panic
           | OutOfFuel => OutOfFuel
           end.

Declare Scope go_scope.
Delimit Scope go_scope with go.
Notation "x <- m ;; k" := (bind m (fun x => k))
  (at level 100, m at next level, right associativity) : go_scope.
Notation "m ;;; k" := (bind m (fun _ => k))
  (at level 100, right associativity) : go_scope.
Open Scope go_scope.

(** [for _, x := range l { body(x) }] for a body that only updates the
    package state. *)
Definition range_do {A} (l : list A) (body : A -> World -> World) : M unit :=
  modify (fun w => fold_left (fun w x => body x w) l w).

(** ** The chunk pool *)

Definition defaultConfig : PoolConfig := mkPoolConfig 128 512 32768.

(** [for l := config.PooledSize; l <= config.MaxSize; l *= 2] *)
Fixpoint initBuffers_loop (fuel : nat) (l : Z) : M unit :=
  fun w =>
    if l <=? MaxSize (config w) then
      match fuel with
      | O => OutOfFuel
      | S fuel' =>
          initBuffers_loop fuel' (wrap64 (l * 2))
            (set_buffers (<[l := []]> (buffers w)) w)
      end
    else Ok (tt, w).

Definition initBuffers (fuel : nat) : M unit :=
  l <- gets (fun w => PooledSize (config w)) ;;
  initBuffers_loop fuel l.

Definition Init (fuel : nat) (cfg : PoolConfig) : M unit :=
  modify (set_config cfg) ;;;
  initBuffers fuel.

(** [putBuf] puts a chunk to the reuse pool if it can be reused. *)
Definition putBuf (buf : slice) (w : World) : World :=
  let size := cap buf in
  if size <? PooledSize (config w) then w
  else match buffers w !! size with
       | Some c => set_buffers (<[size := reslice0 buf :: c]> (buffers w)) w
       | None => w
       end.

(** [getBuf] gets a chunk from the reuse pool or creates a new one. *)
Definition getBuf (size : Z) : M slice :=
  fun w =>
    let fresh := lift (make size) w in
    if PooledSize (config w) <=? size then
      match buffers w !! size with
      | Some (v :: c) => Ok (v, set_buffers (<[size := c]> (buffers w)) w)
      | _ => fresh
      end
    else fresh.

(** ** recyclable: a reference-counted chunk list *)

Module recyclable.
Include recyclable_struct.

(** Reading and writing the struct behind a non-nil pointer. *)
Definition load (p : loc) : M t :=
  gets (fun w => default zero (recyclables w !! p)).
Definition store (p : loc) (v : t) : M unit :=
  modify (fun w => set_recyclables (<[p := v]> (recyclables w)) w).

(** [isRecycle.Add(delta)]: the new value is returned. *)
Definition isRecycle_Add (p : loc) (delta : Z) : M Z :=
  v <- load p ;;
  let n := wrap64 (isRecycle v + delta) in
  store p (mk (data v) n) ;;;
  ret n.

(** [recyclablePool.Get()], with [New] returning [&recyclable{}]. *)
Definition pool_Get : M loc :=
  fun w =>
    match recyclablePool w with
    | p :: ps => Ok (p, set_recyclablePool ps w)
    | [] =>
        let p := fresh (dom (recyclables w)) in
        Ok (p, set_recyclables (<[p := zero]> (recyclables w)) w)
    end.

(** [recyclablePool.Put(p)] *)
Definition pool_Put (p : loc) : M unit :=
  modify (fun w => set_recyclablePool (p :: recyclablePool w) w).

Definition Recycle (r : option loc) : M unit :=
  match r with
  | None => ret tt
  | Some p =>
      n <- isRecycle_Add p (-1) ;;
      if n =? 0 then
        (* Release all buffers. *)
        v <- load p ;;
        let data0 := data v in
        store p (mk [] (isRecycle v)) ;;;
        range_do data0 putBuf ;;;
        pool_Put p
      else ret tt
  end.
End recyclable.

Definition newRecyclable (data : list slice) : M loc :=
  d <- recyclable.pool_Get ;;
  v <- recyclable.load d ;;
  recyclable.store d (recyclable.mk data (recyclable.isRecycle v)) ;;;
  v <- recyclable.load d ;;
  recyclable.store d (recyclable.mk (recyclable.data v) 0) ;;;
  _ <- recyclable.isRecycle_Add d 1 ;;
  ret d.

(** ** recyclableReadCloser: a cursor over a recyclable *)

Module recyclableReadCloser.
Include recyclableReadCloser_struct.

Definition set_bufs (x : option loc) (c : t) : t :=
  mk x (offset c) (index c) (offsetLen c) (size c) (isClose c) (isRecycle c).
Definition set_offset (x : Z) (c : t) : t :=
  mk (bufs c) x (index c) (offsetLen c) (size c) (isClose c) (isRecycle c).
Definition set_index (x : Z) (c : t) : t :=
  mk (bufs c) (offset c) x (offsetLen c) (size c) (isClose c) (isRecycle c).
Definition set_offsetLen (x : Z) (c : t) : t :=
  mk (bufs c) (offset c) (index c) x (size c) (isClose c) (isRecycle c).
Definition set_size (x : Z) (c : t) : t :=
  mk (bufs c) (offset c) (index c) (offsetLen c) x (isClose c) (isRecycle c).
Definition set_isClose (x : bool) (c : t) : t :=
  mk (bufs c) (offset c) (index c) (offsetLen c) (size c) x (isRecycle c).
Definition set_isRecycle (x : bool) (c : t) : t :=
  mk (bufs c) (offset c) (index c) (offsetLen c) (size c) (isClose c) x.

Definition load (p : loc) : M t :=
  gets (fun w => default zero (readers w !! p)).
Definition store (p : loc) (v : t) : M unit :=
  modify (fun w => set_readers (<[p := v]> (readers w)) w).

(** [recyclableReadCloserPool.Get()], with [New] returning
    [&recyclableReadCloser{}]. *)
Definition pool_Get : M loc :=
  fun w =>
    match recyclableReadCloserPool w with
    | p :: ps => Ok (p, set_recyclableReadCloserPool ps w)
    | [] =>
        let p := fresh (dom (readers w)) in
        Ok (p, set_readers (<[p := zero]> (readers w)) w)
    end.

(** [recyclableReadCloserPool.Put(p)] *)
Definition pool_Put (p : loc) : M unit :=
  modify (fun w =>
    set_recyclableReadCloserPool (p :: recyclableReadCloserPool w) w).

Definition Len (r : option loc) : M Z :=
  match r with
  | None => ret 0
  | Some p =>
      c <- load p ;;
      if 0 <? size c then ret (size c)
      else
        match bufs c with
        | None => ret 0
        | Some s =>
            d <- recyclable.load s ;;
            let n := fold_left (fun n b => n + len b) (recyclable.data d) 0 in
            c <- load p ;;
            store p (set_size n c) ;;;
            ret n
        end
  end.

Definition Recycle (r : option loc) : M unit :=
  match r with
  | None => ret tt
  | Some p =>
      c <- load p ;;
      store p (set_isRecycle true c) ;;;        (* isRecycle.Swap(true) *)
      if isRecycle c then ret tt
      else
        c <- load p ;;
        recyclable.Recycle (bufs c) ;;;
        c <- load p ;;
        store p (set_bufs None c) ;;;
        pool_Put p
  end.

Definition Clone (r : option loc) : M (option loc) :=
  match r with
  | None => ret None
  | Some p =>
      c <- load p ;;
      let bufs0 := bufs c in
      (match bufs0 with
       | Some s => _ <- recyclable.isRecycle_Add s 1 ;; ret tt
       | None => ret tt
       end) ;;;
      d <- pool_Get ;;
      store d (mk bufs0 0 0 0 0 false false) ;;;
      ret (Some d)
  end.

Definition Close (r : option loc) : M (option error) :=
  match r with
  | None => ret None
  | Some p =>
      c <- load p ;;
      store p (set_isClose true c) ;;;          (* isClose.Swap(true) *)
      ret None
  end.

(** [bufs[i]]; panics when [i] is out of range. *)
Definition at_index (bufs0 : list slice) (i : Z) : result slice :=
  if i <? 0 then Panic
  else match bufs0 !! Z.to_nat i with
       | Some b => Ok b
       | None => Panic
       end.

(** The loop [for r.index < count] of [Read]; [dst] is the destination
    [p], [n] the count of bytes filled so far.  The result carries [n],
    the value of [err] on leaving the loop, and the destination. *)
Fixpoint Read_loop (fuel : nat) (p : loc) (bufs0 : list slice) (count : Z)
    (dst : list byte) (n : Z) : M (Z * option error * list byte) :=
  c <- load p ;;
  if index c <? count then
    match fuel with
    | O => out_of_fuel
    | S fuel' =>
        if isClose c then ret (n, Some closedErr, dst)
        else
          (* Copy as much as we can. *)
          buf <- lift (at_index bufs0 (index c)) ;;
          src <- lift (slice_from (elems buf) (offset c)) ;;
          room <- lift (slice_from dst n) ;;
          let moved := copy (blen room) src in
          let x := blen moved in
          let dst := take (Z.to_nat n) dst ++ moved ++ drop (Z.to_nat x) room in
          let n := n + x in
          let c := if offset c + x =? len buf
                   then set_index (index c + 1) (set_offset 0 c)
                   else set_offset (offset c + x) c in
          let c := set_offsetLen (offsetLen c + x) c in
          store p c ;;;
          if n =? blen dst then ret (n, None, dst)
          else Read_loop fuel' p bufs0 count dst n
    end
  else ret (n, None, dst).

Definition Read (fuel : nat) (r : option loc) (dst : list byte)
  : M (Z * option error * list byte) :=
  match r with
  | None => ret (0, Some io_EOF, dst)
  | Some p =>
      c <- load p ;;
      total <- Len r ;;
      if total <=? offsetLen c then ret (0, Some io_EOF, dst)
      else
        c <- load p ;;
        if isClose c then ret (0, Some closedErr, dst)
        else
          match bufs c with
          | None => ret (0, Some io_EOF, dst)
          | Some s =>
              d <- recyclable.load s ;;
              let bufs0 := recyclable.data d in
              let count := Z.of_nat (length bufs0) in
              size0 <- Len r ;;
              out <- Read_loop fuel p bufs0 count dst 0 ;;
              let '(n, err, dst') := out in
              c <- load p ;;
              (* Did we empty the whole buffer? *)
              if size0 <=? offsetLen c then
                if blen dst =? 0 then ret (0, None, dst')
                else ret (n, Some io_EOF, dst')
              else ret (n, err, dst')
          end
  end.

Section sinks.
Context {W : Type} `{!Writer W}.

(** The loop [for r.index < count] of [WriteTo]. *)
Fixpoint WriteTo_loop (fuel : nat) (p : loc) (data0 : list slice)
    (count : Z) (n : Z) (w : W) : M (Z * option error * W) :=
  c <- load p ;;
  if index c <? count then
    match fuel with
    | O => out_of_fuel
    | S fuel' =>
        if isClose c then ret (n, Some closedErr, w)
        else
          buf <- lift (at_index data0 (index c)) ;;
          src <- lift (slice_from (elems buf) (offset c)) ;;
          let '(x, err, w') := Write w src in
          let n := wrap64 (n + x) in
          let c := if wrap64 (offset c + x) =? len buf
                   then set_index (index c + 1) (set_offset 0 c)
                   else set_offset (wrap64 (offset c + x)) c in
          let c := set_offsetLen (wrap64 (offsetLen c + x)) c in
          store p c ;;;
          match err with
          | Some e => ret (n, Some e, w')
          | None => WriteTo_loop fuel' p data0 count n w'
          end
    end
  else ret (n, None, w).

Definition WriteTo (fuel : nat) (r : option loc) (w : W)
  : M (Z * option error * W) :=
  match r with
  | None => ret (0, None, w)
  | Some p =>
      c <- load p ;;
      total <- Len r ;;
      if total <=? offsetLen c then ret (0, None, w)
      else
        c <- load p ;;
        if isClose c then ret (0, Some closedErr, w)
        else
          match bufs c with
          | None => ret (0, None, w)
          | Some s =>
              d <- recyclable.load s ;;
              let data0 := recyclable.data d in
              let count := Z.of_nat (length data0) in
              WriteTo_loop fuel p data0 count 0 w
          end
  end.

End sinks.

Section builders.
Context `{!Runtime}.

Definition Bytes (r : option loc) : M slice :=
  match r with
  | None => ret nil_slice
  | Some p =>
      c <- load p ;;
      let bufs0 := bufs c in
      n <- Len r ;;
      if n =? 0 then ret nil_slice
      else
        bf <- lift (make n) ;;
        match bufs0 with
        | None => panic                       (* bufs.data on a nil bufs *)
        | Some s =>
            d <- recyclable.load s ;;
            ret (fold_left (fun bf buf => append bf (elems buf))
                           (recyclable.data d) bf)
        end
  end.

(** [String] views the result of [Bytes] as a string. *)
Definition String (r : option loc) : M (list byte) :=
  sb <- Bytes r ;;
  ret (elems sb).

Definition Reset (r : option loc) : M unit :=
  match r with
  | None => panic                             (* r.offset on a nil r *)
  | Some p =>
      c <- load p ;;
      store p (set_offsetLen 0 (set_index 0 (set_offset 0 c)))
  end.

Definition BuildBytes (r : option loc) (reuse : slice) : M slice :=
  size0 <- Len r ;;
  match r with
  | None => panic                             (* r.bufs on a nil r *)
  | Some p =>
      c <- load p ;;
      let bufs0 := bufs c in
      if size0 =? 0 then ret nil_slice
      else
        match bufs0 with
        | None => panic                       (* bufs.data on a nil bufs *)
        | Some s =>
            d <- recyclable.load s ;;
            ret (fold_left (fun reuse buf => append reuse (elems buf))
                           (recyclable.data d) reuse)
        end
  end.

End builders.
End recyclableReadCloser.

Definition newRecyclableReadCloser (data : list slice) : M loc :=
  d <- recyclableReadCloser.pool_Get ;;
  bufs0 <- newRecyclable data ;;
  recyclableReadCloser.store d
    (recyclableReadCloser.mk (Some bufs0) 0 0 0 0 false false) ;;;
  ret d.

(** The struct of the one-shot reader; its methods follow [Buffer]. *)
Module readCloser_struct.
Record t : Type := mk {
  offset : Z;
  bufs : list slice
}.
End readCloser_struct.

(** ** Buffer: a chain of chunks optimised for serialization *)

Module Buffer.

Record t : Type := mk {
  Buf : slice;          (* the current chunk *)
  toPool : slice;
  bufs : list slice
}.

(** The zero value [Buffer{}]. *)
Definition zero : t := mk nil_slice nil_slice [].

Definition set_Buf (s : slice) (b : t) : t := mk s (toPool b) (bufs b).

Section methods.
Context `{!Runtime}.

(** The list [bufs] is modelled without its own capacity, so the
    preallocation [make([][]byte, 0, 8)] does not appear. *)
Definition ensureSpaceSlow (s : Z) (b : t) : M t :=
  let l := len (Buf b) in
  x <- (if 0 <? l then
          (if negb (cap (toPool b) =? cap (Buf b))
           then modify (putBuf (toPool b))   (* chunk was reallocated *)
           else ret tt) ;;;
          ret (mk (Buf b) (toPool b) (bufs b ++ [Buf b]),
               wrap64 (cap (toPool b) * 2))
        else
          cfg <- gets config ;;
          ret (b, StartSize cfg)) ;;
  let b := fst x in
  let l := snd x in
  cfg <- gets config ;;
  let l := if MaxSize cfg <? l then MaxSize cfg else l in
  buf <- getBuf l ;;
  ret (mk buf buf (bufs b)).

(** [EnsureSpace] makes sure that the current chunk contains at least [s]
    free bytes, possibly creating a new chunk (the source's comment). *)
Definition EnsureSpace (s : Z) (b : t) : M t :=
  if cap (Buf b) - len (Buf b) <? s then ensureSpaceSlow s b else ret b.

Definition AppendByte (data : byte) (b : t) : M t :=
  b <- EnsureSpace 1 b ;;
  ret (set_Buf (append (Buf b) [data]) b).

(** [for len(data) > 0 { ... }] *)
Fixpoint appendBytesSlow (fuel : nat) (data : list byte) (b : t) : M t :=
  if 0 <? blen data then
    match fuel with
    | O => out_of_fuel
    | S fuel' =>
        b <- EnsureSpace 1 b ;;
        let sz := cap (Buf b) - len (Buf b) in
        let sz := if blen data <? sz then blen data else sz in
        front <- lift (slice_to data sz) ;;
        rest <- lift (slice_from data sz) ;;
        appendBytesSlow fuel' rest (set_Buf (append (Buf b) front) b)
    end
  else ret b.

Definition AppendBytes (fuel : nat) (data : list byte) (b : t) : M t :=
  if blen data <=? cap (Buf b) - len (Buf b) then
    ret (set_Buf (append (Buf b) data) b)   (* fast path *)
  else appendBytesSlow fuel data b.

(** A Go [string] is its sequence of bytes. *)
Fixpoint appendStringSlow (fuel : nat) (data : list byte) (b : t) : M t :=
  if 0 <? blen data then
    match fuel with
    | O => out_of_fuel
    | S fuel' =>
        b <- EnsureSpace 1 b ;;
        let sz := cap (Buf b) - len (Buf b) in
        let sz := if blen data <? sz then blen data else sz in
        front <- lift (slice_to data sz) ;;
        rest <- lift (slice_from data sz) ;;
        appendStringSlow fuel' rest (set_Buf (append (Buf b) front) b)
    end
  else ret b.

Definition AppendString (fuel : nat) (data : list byte) (b : t) : M t :=
  if blen data <=? cap (Buf b) - len (Buf b) then
    ret (set_Buf (append (Buf b) data) b)   (* fast path *)
  else appendStringSlow fuel data b.

(** [Size] computes the size of a buffer by adding sizes of every chunk. *)
Definition Size (b : t) : Z :=
  fold_left (fun size buf => size + len buf) (bufs b) (len (Buf b)).

(** [BuildBytes(reuse ...[]byte)]: the variadic argument is the list
    [reuse].  The loop over [bufs] appends a chunk and releases it; the
    appends do not read the pool, so they are written first. *)
Definition BuildBytes (reuse : list slice) (b : t) : M (slice * t) :=
  if Z.of_nat (length (bufs b)) =? 0 then
    ret (Buf b, mk nil_slice nil_slice (bufs b))
  else
    let size := Size b in
    r <- (match reuse with
          | [r0] => if size <=? cap r0 then ret (reslice0 r0)
                    else lift (make size)
          | _ => lift (make size)
          end) ;;
    let r := fold_left (fun r buf => append r (elems buf)) (bufs b) r in
    range_do (bufs b) putBuf ;;;
    let r := append r (elems (Buf b)) in
    modify (putBuf (toPool b)) ;;;
    ret (r, mk nil_slice nil_slice []).

Definition Bytes (b : t) : result slice :=
  match make (Size b) with
  | Ok r =>
      let r := fold_left (fun r buf => append r (elems buf)) (bufs b) r in
      Ok (append r (elems (Buf b)))
  | Panic => Panic
  | OutOfFuel => OutOfFuel
  end.

End methods.

Section sinks.
Context {W : Type} `{!Writer W}.

(** [net.Buffers.WriteTo] of the Go standard library, for a writer
    without vectored I/O: one [Write] per buffer, stopping at the first
    error. *)
Fixpoint net_Buffers_WriteTo (v : list slice) (n : Z) (w : W)
  : (Z * option error) * W :=
  match v with
  | [] => (n, None, w)
  | b :: v' =>
      let '(nb, err, w') := Write w (elems b) in
      let n := wrap64 (n + nb) in
      match err with
      | Some e => (n, Some e, w')
      | None => net_Buffers_WriteTo v' n w'
      end
  end.

(** [DumpTo] outputs the contents of a buffer to a writer and resets the
    buffer. *)
Definition DumpTo (w : W) (b : t) : M ((Z * option error) * W * t) :=
  let bufs0 := bufs b in
  let bufs0 := if 0 <? len (Buf b) then bufs0 ++ [Buf b] else bufs0 in
  let '(n, err, w') := net_Buffers_WriteTo bufs0 0 w in
  range_do (bufs b) putBuf ;;;
  modify (putBuf (toPool b)) ;;;
  ret (n, err, w', mk nil_slice nil_slice []).

(** The first loop of [WriteTo]: [Some] is the early [return] on a write
    error. *)
Fixpoint WriteTo_spilled (l : list slice) (n : Z) (w : W)
  : Z * option error * W :=
  match l with
  | [] => (n, None, w)
  | buf :: l' =>
      let '(wLen, err, w') := Write w (elems buf) in
      let n := wrap64 (n + wLen) in
      match err with
      | Some e => (n, Some e, w')
      | None => WriteTo_spilled l' n w'
      end
  end.

(** [WriteTo] outputs the contents of a buffer to a writer and resets the
    buffer (the source's comment). *)
Definition WriteTo (w : W) (b : t) : M ((Z * option error) * W * t) :=
  let '(n, err, w') := WriteTo_spilled (bufs b) 0 w in
  match err with
  | Some e => ret (n, Some e, w', b)
  | None =>
      let '(wLen, err, w'') := Write w' (elems (Buf b)) in
      let n := wrap64 (n + wLen) in
      range_do (bufs b) putBuf ;;;
      modify (putBuf (toPool b)) ;;;
      ret (n, err, w'', mk nil_slice nil_slice [])
  end.

End sinks.

(** [RecyclableReader] hands the chunks over to a new cursor and empties
    the buffer. *)
Definition RecyclableReader (b : t) : M (loc * t) :=
  ret0 <- newRecyclableReadCloser (bufs b ++ [Buf b]) ;;
  ret (ret0, mk nil_slice nil_slice []).

(** [ReadCloser] creates an io.ReadCloser with all the contents of the
    buffer. *)
Definition ReadCloser (b : t) : readCloser_struct.t * t :=
  (readCloser_struct.mk 0 (bufs b ++ [Buf b]), mk nil_slice nil_slice []).

Section io_methods.
Context `{!Runtime}.

(** [Write] and [WriteString] make a [Buffer] an [io.Writer]. *)
Definition Write (fuel : nat) (data : list byte) (b : t)
  : M (Z * option error * t) :=
  b <- AppendBytes fuel data b ;;
  ret (blen data, None, b).

Definition WriteString (fuel : nat) (data : list byte) (b : t)
  : M (Z * option error * t) :=
  b <- AppendString fuel data b ;;
  ret (blen data, None, b).

Definition String (b : t) : result (list byte) :=
  match Bytes b with
  | Ok r => Ok (elems r)
  | Panic => Panic
  | OutOfFuel => OutOfFuel
  end.

(** The size [c] of the working block of [ReadFrom]. *)
Definition ReadFrom_c : Z := 4096.

(** The loop [for { ... }] of [ReadFrom]: [buf] is the working block, [i]
    the count of bytes waiting in it, [n] the count of bytes appended.  The
    appends are at most [c] bytes long and get [c] rounds of fuel. *)
Fixpoint ReadFrom_loop {R : Type} `{!Reader R} (fuel : nat) (r : R)
    (buf : list byte) (i n : Z) (b : t) : M (Z * option error * R * t) :=
  match fuel with
  | O => out_of_fuel
  | S fuel' =>
      region <- lift (slice_between buf i ReadFrom_c) ;;
      let '(m, e, data, r') := io_Read r (blen region) in
      let stored := take (length region) data in
      let buf := take (Z.to_nat i) buf ++ stored
                 ++ drop (length stored) region in
      let i := wrap64 (i + m) in
      x <- (if i =? ReadFrom_c then
              front <- lift (slice_to buf i) ;;
              b <- AppendBytes (Z.to_nat ReadFrom_c) front b ;;
              ret (b, n + i, 0)
            else ret (b, n, i)) ;;
      let '(b, n, i) := x in
      match e with
      | Some e' =>
          y <- (if 0 <? i then
                  front <- lift (slice_to buf i) ;;
                  b <- AppendBytes (Z.to_nat ReadFrom_c) front b ;;
                  ret (b, n + i)
                else ret (b, n)) ;;
          let '(b, n) := y in
          match e' with
          | io_EOF => ret (n, None, r', b)
          | _ => ret (n, Some e', r', b)
          end
      | None => ReadFrom_loop fuel' r' buf i n b
      end
  end.

Definition ReadFrom {R : Type} `{!Reader R} (fuel : nat) (r : R) (b : t)
  : M (Z * option error * R * t) :=
  ReadFrom_loop fuel r (replicate (Z.to_nat ReadFrom_c) "000"%byte) 0 0 b.

End io_methods.

End Buffer.

(** ** readCloser: the one-shot reader *)

(** [net.Buffers.consume(n)] of the Go standard library, seen through the
    array the receiver shares with its caller: the buffers wholly covered
    by [n] are overwritten with nil, a buffer partly covered is resliced to
    its unwritten part, the others are left alone. *)
Fixpoint net_Buffers_consume (v : list slice) (n : Z) : result (list slice) :=
  match v with
  | [] => Ok []
  | b :: v' =>
      if n <? len b then
        match slice_from (elems b) n with
        | Ok rest => Ok (mkSlice rest (cap b - n) :: v')
        | Panic => Panic
        | OutOfFuel => OutOfFuel
        end
      else
        match net_Buffers_consume v' (n - len b) with
        | Ok v'' => Ok (nil_slice :: v'')
        | Panic => Panic
        | OutOfFuel => OutOfFuel
        end
  end.

Module readCloser.
Include readCloser_struct.

(** The loop [for _, buf := range r.bufs] of [Read]: [l] is the slice the
    range statement evaluated on entry, [dst] the destination [p], [n] the
    count of bytes filled so far. *)
Fixpoint Read_loop (l : list slice) (r : t) (dst : list byte) (n : Z)
  : M (t * list byte * Z) :=
  match l with
  | [] => ret (r, dst, n)
  | buf :: l' =>
      (* Copy as much as we can. *)
      src <- lift (slice_from (elems buf) (offset r)) ;;
      room <- lift (slice_from dst n) ;;
      let moved := copy (blen room) src in
      let x := blen moved in
      let dst := take (Z.to_nat n) dst ++ moved ++ drop (Z.to_nat x) room in
      let n := n + x in
      (* Did we empty the whole buffer? *)
      r <- (if offset r + x =? len buf then
              match bufs r with
              | [] => panic                       (* r.bufs[1:] *)
              | _ :: rest =>
                  (* We can release this buffer. *)
                  modify (putBuf buf) ;;;
                  ret (mk 0 rest)
              end
            else ret (mk (offset r + x) (bufs r))) ;;
      if n =? blen dst then ret (r, dst, n)
      else Read_loop l' r dst n
  end.

Definition Read (r : t) (dst : list byte)
  : M (Z * option error * list byte * t) :=
  out <- Read_loop (bufs r) r dst 0 ;;
  let '(r, dst, n) := out in
  (* No buffers left or nothing read? *)
  if Z.of_nat (length (bufs r)) =? 0 then ret (n, Some io_EOF, dst, r)
  else ret (n, None, dst, r).

Definition Close (r : t) : M (option error * t) :=
  (* Release all remaining buffers. *)
  range_do (bufs r) putBuf ;;;
  (* In case Close gets called multiple times. *)
  ret (None, mk (offset r) []).

Section sinks.
Context {W : Type} `{!Writer W}.

(** [bufs := net.Buffers(r.bufs)] shares its array with [r.bufs], so the
    release loop ranges over what [consume] has left there. *)
Definition WriteTo (w : W) (r : t) : M (Z * option error * W * t) :=
  let '(n, err, w') := Buffer.net_Buffers_WriteTo (bufs r) 0 w in
  left <- lift (net_Buffers_consume (bufs r) n) ;;
  range_do left putBuf ;;;
  ret (n, err, w', mk (offset r) []).

End sinks.

Section builders.
Context `{!Runtime}.

Definition String (r : t) : result (list byte) :=
  let n := fold_left (fun n buf => n + len buf) (bufs r) 0 in
  if n =? 0 then Ok []
  else
    match make n with
    | Ok s =>
        Ok (elems (fold_left (fun s buf => append s (elems buf)) (bufs r) s))
    | Panic => Panic
    | OutOfFuel => OutOfFuel
    end.

End builders.
End readCloser.

(** * Specification-side definitions *)

(** ** Observations on chunks and on the pool *)

(** The bytes held by a list of chunks. *)
Definition contents (l : list slice) : list byte :=
  concat (map elems l).

(** The total length of a list of chunks, as the loops of [Len] and
    [Size] add it up. *)
Definition total_len (l : list slice) : Z :=
  fold_left (fun n b => n + len b) l 0.

(** The number of chunks waiting in the size class [k]. *)
Definition occupancy (w : World) (k : Z) : nat :=
  length (default [] (buffers w !! k)).



(** Releasing a list of chunks, one [putBuf] each, in order. *)
Definition release_all (l : list slice) (w : World) : World :=
  fold_left (fun w buf => putBuf buf w) l w.

(** Every pooled chunk sits in the size class of its capacity and has
    length 0: what [putBuf] stores. *)
Definition pool_ok (w : World) : Prop :=
  forall k c, buffers w !! k = Some c ->
    Forall (fun s => cap s = k /\ elems s = []) c.

(** A boolean test for [pool_ok]. *)
Definition pool_okb (w : World) : bool :=
  forallb (fun kc : Z * list slice =>
             forallb (fun s => (cap s =? fst kc)
                               && Nat.eqb (length (elems s)) 0) (snd kc))
          (map_to_list (buffers w)).

(** ** Observations on cursors *)

Module cursor_spec.
Import recyclableReadCloser.

(** The struct behind the pointer [p]. *)
Definition reader_at (p : loc) (w : World) : t :=
  default zero (readers w !! p).

(** The chunk list a cursor points to. *)
Definition data_of (c : t) (w : World) : list slice :=
  match bufs c with
  | None => []
  | Some s => recyclable.data (default recyclable.zero (recyclables w !! s))
  end.

(** The value [Len] returns for the cursor [c]. *)
Definition Len_value (c : t) (w : World) : Z :=
  if 0 <? size c then size c else total_len (data_of c w).

(** The cursor after [Len]: only its cached [size] may differ. *)
Definition Len_cached (c : t) (w : World) : t :=
  if 0 <? size c then c
  else match bufs c with
       | None => c
       | Some _ => set_size (total_len (data_of c w)) c
       end.

Definition put_reader (p : loc) (c : t) (w : World) : World :=
  set_readers (<[p := c]> (readers w)) w.
End cursor_spec.

(** The cursor [p] holds a share of the chunk set [s]: it points to it and
    has not been recycled. *)
Definition holds (s : loc) (w : World) (p : loc) : Prop :=
  exists c, readers w !! p = Some c
            /\ recyclableReadCloser.bufs c = Some s
            /\ recyclableReadCloser.isRecycle c = false.

(** The cursor [p] has been recycled. *)
Definition recycled (w : World) (p : loc) : Prop :=
  exists c, readers w !! p = Some c
            /\ recyclableReadCloser.isRecycle c = true.


(** ** Sequences of appends *)

(** One call of the append interface of [Buffer]. *)
Inductive append_op : Type :=
  | op_AppendByte (data : byte)
  | op_AppendBytes (data : list byte)
  | op_AppendString (data : list byte).

(** The bytes a call appends. *)
Definition payload (o : append_op) : list byte :=
  match o with
  | op_AppendByte data => [data]
  | op_AppendBytes data => data
  | op_AppendString data => data
  end.

Definition run_op `{!Runtime} (fuel : nat) (o : append_op) (b : Buffer.t)
  : M Buffer.t :=
  match o with
  | op_AppendByte data => Buffer.AppendByte data b
  | op_AppendBytes data => Buffer.AppendBytes fuel data b
  | op_AppendString data => Buffer.AppendString fuel data b
  end.

Fixpoint run_ops `{!Runtime} (fuel : nat) (ops : list append_op)
    (b : Buffer.t) : M Buffer.t :=
  match ops with
  | [] => ret b
  | o :: ops' => b' <- run_op fuel o b ;; run_ops fuel ops' b'
  end.

(** Chunk sizes are positive and can be doubled without overflow. *)
Definition valid_config (cfg : PoolConfig) : Prop :=
  0 < StartSize cfg /\ 0 < MaxSize cfg < 2 ^ 62.

(** The active chunk of a buffer that is only used through its methods:
    it is the chunk recorded in [toPool] and no larger than the maximum
    size. *)
Definition buf_inv (cfg : PoolConfig) (b : Buffer.t) : Prop :=
  len (Buffer.Buf b) <= cap (Buffer.Buf b)
  /\ cap (Buffer.toPool b) = cap (Buffer.Buf b)
  /\ cap (Buffer.Buf b) <= MaxSize cfg.

(** The bytes a buffer holds, in order. *)
Definition Buffer_contents (b : Buffer.t) : list byte :=
  contents (Buffer.bufs b) ++ elems (Buffer.Buf b).

(** What an append operation owes its caller. *)
Definition appended (data : list byte) (b : Buffer.t) (w : World)
    (r : result (Buffer.t * World)) : Prop :=
  exists b' w',
    r = Ok (b', w')
    /\ config w' = config w /\ pool_ok w'
    /\ buf_inv (config w) b'
    /\ Buffer_contents b' = Buffer_contents b ++ data.

(** The growth rule in the words of the specification: the start size for
    the very first chunk of a buffer, otherwise twice the capacity of the
    previous active chunk, capped by the maximum size. *)
Definition spec_requested (cfg : PoolConfig) (first_chunk : bool)
    (prev_cap : Z) : Z :=
  if first_chunk then StartSize cfg
  else Z.min (MaxSize cfg) (2 * prev_cap).

(** ** Scenarios *)

(** A run time whose [append] grows a slice to exactly the size needed. *)
Definition exact_growth : Runtime :=
  {| growcap := fun _ needed => needed;
     growcap_ge := fun _ needed => Z.le_refl needed |}.

(** What a run of an operation leaves behind. *)
Definition world_after {A} (m : M A) (w : World) : World :=
  match m w with
  | Ok (_, w') => w'
  | _ => w
  end.

(** The package state before [init] has run. *)
Definition empty_world (cfg : PoolConfig) : World :=
  mkWorld cfg ∅ [] [] ∅ ∅.

(** The package state after [init]: the default configuration with its
    size classes 512, 1024, ..., 32768, all empty. *)
Definition init_world : World :=
  world_after (initBuffers 64) (empty_world defaultConfig).

(** The configuration of the specification's scenario: start size 4,
    pooled size 8, maximum size 16. *)
Definition small_world : World :=
  world_after (Init 64 (mkPoolConfig 4 8 16)) init_world.

(** A sink that accepts [budget] more calls of [Write] in full and fails
    every later one, taking nothing. *)
Record sink : Type := mkSink { written : list byte; budget : nat }.

Definition sink_Write (w : sink) (p : list byte) : (Z * option error) * sink :=
  match budget w with
  | O => (0, Some (sink_err 5), w)
  | S k => (blen p, None, mkSink (written w ++ p) k)
  end.

Definition sink_Writer : Writer sink := sink_Write.

Definition abcdef : list byte := ["a"; "b"; "c"; "d"; "e"; "f"]%byte.

(** A cursor over the bytes [data], made the way a caller makes one: the
    bytes are appended to a fresh buffer, which is then turned into a
    recyclable reader. *)
Definition reader_over (data : list byte) : M loc :=
  b <- Buffer.AppendBytes (H := exact_growth) (length data) data Buffer.zero ;;
  r <- Buffer.RecyclableReader b ;;
  ret (fst r).

(** In [init_world] the first cursor and the first chunk set are both
    allocated at address 1. *)
Definition first_loc : loc := 1%positive.

(** A cursor over "abcdef" that has read [k] bytes. *)
Definition abcdef_read (k : nat) : World :=
  world_after (p <- reader_over abcdef ;;
               recyclableReadCloser.Read 2 (Some p) (replicate k "000"%byte))
              init_world.

(** A buffer holding 2000 bytes: with the default configuration its
    spilled chunks have capacities 128, 256, 512 and 1024 and are full, and
    the active chunk has capacity 2048. *)
Definition buffer_2000 : Buffer.t :=
  match Buffer.AppendBytes (H := exact_growth) 2000 (replicate 2000 "a"%byte)
          Buffer.zero init_world with
  | Ok (b, _) => b
  | _ => Buffer.zero
  end.

(** Three cursors over one chunk set holding 2000 bytes: the cursor made
    from the buffer and two clones of it, at the addresses 1, 2 and 3.  The
    chunks have capacities 128, 256, 512, 1024 and 2048. *)
Definition three_cursors : World :=
  world_after (p <- reader_over (replicate 2000 "a"%byte) ;;
               _ <- recyclableReadCloser.Clone (Some p) ;;
               recyclableReadCloser.Clone (Some p))
              init_world.

Definition hello_world : list byte :=
  ["h"; "e"; "l"; "l"; "o"; " "; "w"; "o"; "r"; "l"; "d"; "!"]%byte.

(** "hello world!" in three calls of four bytes, then one more byte and a
    block of 40 bytes: 53 bytes in all, beyond the maximum chunk size 16. *)
Definition hello_ops : list append_op :=
  [op_AppendString (take 4 hello_world);
   op_AppendString (take 4 (drop 4 hello_world));
   op_AppendString (drop 8 hello_world);
   op_AppendByte "!"%byte;
   op_AppendBytes (replicate 40 "x"%byte)].

(** ** Further observations *)

(** The size classes of a configuration: the pooled size doubled any number
    of times, up to the maximum size. *)
Definition size_class (cfg : PoolConfig) (k : Z) : Prop :=
  exists i : nat, k = PooledSize cfg * 2 ^ Z.of_nat i /\ k <= MaxSize cfg.

(** A writer that takes every byte it is given, reports so, and keeps the
    bytes in order: [out] reads back what it has received. *)
Definition accepting {W : Type} `{!Writer W} (out : W -> list byte) : Prop :=
  forall w p, exists w', Write w p = (blen p, None, w') /\ out w' = out w ++ p.

(** The simplest such writer: the list of the bytes received. *)
Definition store_all : Writer (list byte) :=
  fun w p => (blen p, None, w ++ p).

(** A full chunk of 128 bytes as the active chunk of a buffer. *)
Definition buffer_128 : Buffer.t :=
  Buffer.mk (mkSlice (replicate 128 "a"%byte) 128) (mkSlice [] 128) [].

(** The buffer [buffer_128] after a caller has appended 172 bytes to
    its field [Buf] directly: the run time has reallocated the active chunk,
    with a capacity of 300 here, and [toPool] still records the chunk of
    capacity 128 that the buffer acquired. *)
Definition reallocated_buffer : Buffer.t :=
  Buffer.set_Buf
    (append (H := exact_growth) (Buffer.Buf buffer_128)
       (replicate 172 "b"%byte))
    buffer_128.

(** The three cursors after the one at address 2 has been recycled: its
    struct waits in the struct pool, and the chunk set is shared by the
    cursors at the addresses 1 and 3. *)
Definition one_recycled : World :=
  world_after (recyclableReadCloser.Recycle (Some 2%positive)) three_cursors.

(** ** Recycled marks *)




(** ** Positions in a chunk list *)

(** The position of a cursor agrees with the chunk list [data] it reads:
    the chunk index and the offset lie inside the list and the chunk, the
    consumed count is the length of the chunks passed plus the offset, and
    the cached length, if any, is the length of the data. *)
Definition pos_ok (data : list slice) (c : recyclableReadCloser.t) : Prop :=
  0 <= recyclableReadCloser.index c <= Z.of_nat (length data)
  /\ 0 <= recyclableReadCloser.offset c
  /\ (forall buf,
         data !! Z.to_nat (recyclableReadCloser.index c) = Some buf ->
         recyclableReadCloser.offset c <= len buf)
  /\ (recyclableReadCloser.index c = Z.of_nat (length data) ->
      recyclableReadCloser.offset c = 0)
  /\ recyclableReadCloser.offsetLen c
     = blen (contents (take (Z.to_nat (recyclableReadCloser.index c)) data))
       + recyclableReadCloser.offset c
  /\ (recyclableReadCloser.size c = 0
      \/ recyclableReadCloser.size c = blen (contents data)).

(** The bytes of [data] that the cursor has not consumed. *)
Definition unread (data : list slice) (c : recyclableReadCloser.t)
  : list byte :=
  drop (Z.to_nat (recyclableReadCloser.offsetLen c)) (contents data).

(** ** Positions of the one-shot reader *)

(** The offset of a one-shot reader lies inside its first chunk. *)
Definition once_ok (r : readCloser.t) : Prop :=
  0 <= readCloser.offset r
  /\ forall buf, head (readCloser.bufs r) = Some buf ->
                 readCloser.offset r <= len buf.

(** The bytes a one-shot reader has not delivered yet. *)
Definition once_unread (r : readCloser.t) : list byte :=
  drop (Z.to_nat (readCloser.offset r)) (contents (readCloser.bufs r)).

(** ** Readers for [ReadFrom] *)

(** A reader that delivers the bytes [remaining] in order and then ends
    with the error [final]: a call with room for at least one byte stores
    a part of the remaining bytes that fits, a call without an error
    stores at least one byte, and an error comes, with or after the last
    bytes, only when nothing remains. *)
Definition delivering {R : Type} `{!Reader R} (remaining : R -> list byte)
    (final : error) : Prop :=
  forall r room, 0 < room ->
    exists chunk e r',
      io_Read r room = (blen chunk, e, chunk, r')
      /\ blen chunk <= room
      /\ remaining r = chunk ++ remaining r'
      /\ (e = None -> chunk <> [])
      /\ (e <> None -> e = Some final /\ remaining r' = []).

(** The error [ReadFrom] reports for a reader that ends with [final]. *)
Definition ReadFrom_err (final : error) : option error :=
  match final with
  | io_EOF => None
  | _ => Some final
  end.

(** A reader over a byte list that hands out up to [step] bytes per call
    (at least one) and reports [io.EOF] once the list is used up, as
    [bytes.Reader] does. *)
Definition list_reader (step : Z) : Reader (list byte) :=
  fun r room =>
    match r with
    | [] => (0, Some io_EOF, [], [])
    | _ =>
        let m := Z.to_nat (Z.min room (Z.max 1 step)) in
        (blen (take m r), None, take m r, drop m r)
    end.

(** * Properties *)

(** Unfolding the operations of the monad. *)
Ltac monad_simpl :=
  cbv beta iota delta [bind ret gets modify lift panic out_of_fuel fst snd].


(** ** Facts about cursors *)

Section reader_facts.
Import recyclableReadCloser cursor_spec.

Lemma put_reader_same p c w :
  readers w !! p = Some c -> put_reader p c w = w.
Proof.
  intros H. unfold put_reader, set_readers. rewrite insert_id by exact H.
  destruct w; reflexivity.
Qed.

Lemma Len_eq p c w :
  readers w !! p = Some c ->
  Len (Some p) w = Ok (Len_value c w, put_reader p (Len_cached c w) w).
Proof.
  intros H.
  unfold Len, Len_value, Len_cached, data_of, bind, load, gets, ret, store,
    modify.
  rewrite H. simpl.
  destruct (0 <? size c).
  - rewrite put_reader_same by exact H. reflexivity.
  - destruct (bufs c) as [s|].
    + unfold recyclable.load, gets. rewrite H. reflexivity.
    + rewrite put_reader_same by exact H. reflexivity.
Qed.

Lemma reader_at_put p c w : reader_at p (put_reader p c w) = c.
Proof. unfold reader_at, put_reader. simpl. rewrite lookup_insert_eq. reflexivity. Qed.

Lemma Len_cached_fields c w :
  bufs (Len_cached c w) = bufs c
  /\ offset (Len_cached c w) = offset c
  /\ index (Len_cached c w) = index c
  /\ offsetLen (Len_cached c w) = offsetLen c
  /\ isClose (Len_cached c w) = isClose c
  /\ isRecycle (Len_cached c w) = isRecycle c.
Proof.
  unfold Len_cached. destruct (0 <? size c); [tauto |].
  destruct (bufs c) eqn:E; rewrite ?E; simpl; tauto.
Qed.

Lemma total_len_acc (l : list slice) (a : Z) :
  fold_left (fun n b => n + len b) l a = a + total_len l.
Proof.
  unfold total_len. revert a.
  induction l as [|x l IH]; intros a; simpl; [lia |].
  rewrite (IH (a + len x)), (IH (0 + len x)). lia.
Qed.

Lemma total_len_contents (l : list slice) :
  total_len l = blen (contents l).
Proof.
  unfold contents, blen. induction l as [|x l IH]; [reflexivity |].
  unfold total_len in *. simpl. rewrite total_len_acc.
  unfold total_len. rewrite IH, length_app. unfold len. lia.
Qed.

Lemma total_len_nonneg (l : list slice) : 0 <= total_len l.
Proof. rewrite total_len_contents. unfold blen. lia. Qed.
End reader_facts.

(** ** Nil receivers *)

(** C10. On a nil cursor [Read] returns [(0, io.EOF)], [Close] and [Recycle]
    do nothing and succeed, [Len] returns 0 and [Clone] returns nil; but
    not every public method tolerates a nil receiver: [Reset] and
    [BuildBytes] dereference it and panic. *)
Theorem C10_nil_receiver `{!Runtime} (fuel : nat) (dst : list byte)
    (reuse : slice) (w : World) :
  recyclableReadCloser.Read fuel None dst w = Ok (0, Some io_EOF, dst, w)
  /\ recyclableReadCloser.Close None w = Ok (None, w)
  /\ recyclableReadCloser.Recycle None w = Ok (tt, w)
  /\ recyclableReadCloser.Len None w = Ok (0, w)
  /\ recyclableReadCloser.Clone None w = Ok (None, w)
  /\ recyclableReadCloser.Reset None w = Panic
  /\ recyclableReadCloser.BuildBytes None reuse w = Panic.
Proof. repeat split; reflexivity. Qed.

(** ** Reading at the end of the data *)

Section at_end.
Import recyclableReadCloser cursor_spec.

(** C8. A cursor that is not closed and has consumed all its bytes
    answers every [Read] with [(0, io.EOF)], whatever the destination:
    the guard at the head of [Read] returns before the later test for a
    zero-length destination is reached, so the empty destination gets
    [io.EOF] as well, not [(0, nil)]. *)
Theorem C8_read_at_end_is_EOF (fuel : nat) (p : loc) (dst : list byte)
    (w : World) (c : t) :
  readers w !! p = Some c ->
  isClose c = false ->
  offsetLen c = Len_value c w ->
  Read fuel (Some p) dst w
  = Ok (0, Some io_EOF, dst, put_reader p (Len_cached c w) w).
Proof.
  intros Hp _ Hend. unfold Read, bind, load, gets.
  rewrite (Len_eq p c w Hp), Hp. simpl.
  rewrite Hend, Z.leb_refl. reflexivity.
Qed.

Lemma C8_read_at_end_is_EOF_witness :
  Read 1 (Some first_loc) [] (abcdef_read 6)
  = Ok (0, Some io_EOF, [], abcdef_read 6)
  /\ Read 1 (Some first_loc) ["000"%byte] (abcdef_read 6)
     = Ok (0, Some io_EOF, ["000"%byte], abcdef_read 6).
Proof.
  split.
  - rewrite (C8_read_at_end_is_EOF 1 first_loc [] (abcdef_read 6)
               (mk (Some first_loc) 0 1 6 6 false false));
      vm_compute; reflexivity.
  - rewrite (C8_read_at_end_is_EOF 1 first_loc ["000"%byte] (abcdef_read 6)
               (mk (Some first_loc) 0 1 6 6 false false));
      vm_compute; reflexivity.
Defined.
End at_end.

(** ** Facts about the chunk pool *)

Section pool_facts.

Lemma putBuf_config buf w : config (putBuf buf w) = config w.
Proof.
  unfold putBuf. destruct (cap buf <? PooledSize (config w)); [reflexivity |].
  destruct (buffers w !! cap buf); reflexivity.
Qed.

Lemma putBuf_pool_ok buf w : pool_ok w -> pool_ok (putBuf buf w).
Proof.
  intros Hok. unfold putBuf.
  destruct (cap buf <? PooledSize (config w)); [exact Hok |].
  destruct (buffers w !! cap buf) as [c|] eqn:E; [| exact Hok].
  intros k c'. simpl. rewrite lookup_insert.
  destruct (decide (cap buf = k)) as [<- | Hne].
  - intros [= <-]. constructor; [split; reflexivity |]. exact (Hok _ _ E).
  - apply Hok.
Qed.

Lemma release_all_config l w : config (release_all l w) = config w.
Proof.
  unfold release_all. revert w.
  induction l as [|x l IH]; intros w; simpl; [reflexivity |].
  rewrite IH. apply putBuf_config.
Qed.

Lemma release_all_pool_ok l w : pool_ok w -> pool_ok (release_all l w).
Proof.
  unfold release_all. revert w.
  induction l as [|x l IH]; intros w Hok; simpl; [exact Hok |].
  apply IH, putBuf_pool_ok, Hok.
Qed.

Lemma pool_okb_sound w : pool_okb w = true -> pool_ok w.
Proof.
  unfold pool_okb, pool_ok. rewrite forallb_forall. intros H k c Hk.
  apply elem_of_map_to_list, list_elem_of_In in Hk.
  specialize (H _ Hk). cbn [fst snd] in H. rewrite forallb_forall in H.
  apply Forall_forall. intros s Hs. apply list_elem_of_In in Hs.
  specialize (H _ Hs). apply andb_prop in H as [H1 H2].
  apply Z.eqb_eq in H1. apply Nat.eqb_eq in H2.
  split; [exact H1 |]. destruct (elems s); [reflexivity | discriminate].
Qed.

Lemma init_world_pool_ok : pool_ok init_world.
Proof. apply pool_okb_sound. vm_compute. reflexivity. Qed.

(** A non-negative request is always served, by a chunk of exactly the
    requested capacity and of length 0. *)
Lemma getBuf_ok size w :
  pool_ok w -> 0 <= size ->
  exists buf w',
    getBuf size w = Ok (buf, w')
    /\ cap buf = size /\ elems buf = []
    /\ config w' = config w /\ pool_ok w'.
Proof.
  intros Hok Hsize.
  assert (Hfresh : lift (make size) w = Ok (mkSlice [] size, w)).
  { unfold lift, make. destruct (Z.ltb_spec size 0); [lia | reflexivity]. }
  assert (Hmade : exists buf w',
             Ok (mkSlice [] size, w) = Ok (buf, w')
             /\ cap buf = size /\ elems buf = []
             /\ config w' = config w /\ pool_ok w').
  { exists (mkSlice [] size), w. auto. }
  unfold getBuf. rewrite Hfresh.
  destruct (PooledSize (config w) <=? size); [| exact Hmade].
  destruct (buffers w !! size) as [[|v c]|] eqn:E; try exact Hmade.
  pose proof (Hok _ _ E) as Hc.
  inversion Hc as [|? ? [Hcap Hel] Hrest]; subst.
  exists v, (set_buffers (<[cap v := c]> (buffers w)) w).
  split; [reflexivity |]. split; [reflexivity |]. split; [exact Hel |].
  split; [reflexivity |].
  intros k c'. simpl. rewrite lookup_insert.
  destruct (decide (cap v = k)) as [<- | Hne].
  - intros [= <-]. exact Hrest.
  - apply Hok.
Qed.

End pool_facts.

(** ** Growing a buffer *)

Section growth.
Import Buffer.

(** C4. [EnsureSpace(n)] does not always leave [n] free bytes: the size of
    the chunk it acquires does not depend on [n].  On a fresh buffer a
    request for more than the start size leaves exactly the start size
    free. *)
Theorem C4_EnsureSpace_short (n : Z) (w : World) :
  pool_ok w ->
  0 <= StartSize (config w) <= MaxSize (config w) ->
  StartSize (config w) < n ->
  exists b' w',
    EnsureSpace n zero w = Ok (b', w')
    /\ cap (Buf b') - len (Buf b') = StartSize (config w)
    /\ cap (Buf b') - len (Buf b') < n.
Proof.
  intros Hok [H0 Hmax] Hn.
  unfold EnsureSpace.
  change (cap (Buf zero) - len (Buf zero)) with 0.
  destruct (Z.ltb_spec 0 n) as [_|]; [| lia].
  unfold ensureSpaceSlow.
  change (0 <? len (Buf zero)) with false. monad_simpl.
  destruct (Z.ltb_spec (MaxSize (config w)) (StartSize (config w))); [lia |].
  destruct (getBuf_ok (StartSize (config w)) w Hok H0)
    as (buf & w' & -> & Hcap & Hel & _).
  exists (mk buf buf []), w'. cbn [Buf]. unfold len. rewrite Hcap, Hel.
  cbn [length]. repeat split; lia.
Qed.

Lemma C4_EnsureSpace_short_witness :
  exists b' w',
    EnsureSpace 129 zero init_world = Ok (b', w')
    /\ cap (Buf b') - len (Buf b') = 128
    /\ cap (Buf b') - len (Buf b') < 129.
Proof.
  apply (C4_EnsureSpace_short 129 init_world).
  - exact init_world_pool_ok.
  - vm_compute. split; discriminate.
  - reflexivity.
Defined.

End growth.

Section growth_policy.
Import Buffer.

Lemma wrap64_id (z : Z) : - 2 ^ 63 <= z < 2 ^ 63 -> wrap64 z = z.
Proof. intros H. unfold wrap64. rewrite Z.mod_small; lia. Qed.

(** C5, as the specification words it, fails: the code doubles the
    capacity of the chunk recorded in [toPool], the chunk the buffer
    acquired last, not the capacity of the active chunk.  The two differ
    when a caller has appended to [Buf] directly and the run time has
    reallocated it, the case [ensureSpaceSlow] has a branch for.  Here the
    active chunk has capacity 300 and holds 300 bytes, the recorded chunk
    has capacity 128, and the new chunk is requested at 256, not at 600. *)
Lemma C5_counterexample :
  exists b2 w2,
    cap (Buf reallocated_buffer) = 300
    /\ len (Buf reallocated_buffer) = 300
    /\ EnsureSpace 1 reallocated_buffer init_world = Ok (b2, w2)
    /\ cap (Buf b2) = 256
    /\ spec_requested (config init_world) false (cap (Buf reallocated_buffer))
       = 600
    /\ cap (Buf b2)
       <> spec_requested (config init_world) false
            (cap (Buf reallocated_buffer)).
Proof.
  eexists _, _.
  split; [reflexivity |]. split; [reflexivity |].
  split; [vm_compute; reflexivity |].
  split; [reflexivity |]. split; [reflexivity |].
  vm_compute. discriminate.
Qed.

(** C5, amended.  When [ensureSpaceSlow] acquires a new active chunk, the
    capacity it requests from [getBuf] is the start size if the buffer has
    no active chunk yet (the very first chunk), and, if the active chunk
    holds bytes, the smaller of the maximum size and twice the capacity of
    the chunk recorded in [toPool], the chunk the buffer acquired last.
    That chunk is the previous active chunk, and the rule is the one the
    specification words, unless an append made directly on [Buf] has
    reallocated the active chunk; then the recorded chunk is released to
    the pool before the request.  A previous active chunk that holds bytes
    is spilled.  The start size is assumed to be at most the maximum size
    and the recorded capacity to lie between 0 and 2^62; an empty active
    chunk that is too small is not covered. *)
Theorem C5_growth_policy (s : Z) (b : t) (w : World) :
  StartSize (config w) <= MaxSize (config w) ->
  0 <= cap (toPool b) < 2 ^ 62 ->
  0 < len (Buf b) \/ (cap (Buf b) = 0 /\ len (Buf b) = 0) ->
  let first := len (Buf b) =? 0 in
  let l := if first then StartSize (config w)
           else Z.min (MaxSize (config w)) (2 * cap (toPool b)) in
  let spilled := if first then bufs b else bufs b ++ [Buf b] in
  let w0 := if first || (cap (toPool b) =? cap (Buf b)) then w
            else putBuf (toPool b) w in
  ensureSpaceSlow s b w
  = (buf <- getBuf l ;; ret (mk buf buf spilled)) w0
  /\ (first = true \/ cap (toPool b) = cap (Buf b) ->
      l = spec_requested (config w) first (cap (Buf b)))
  /\ (pool_ok w -> 0 <= l ->
      exists buf w',
        ensureSpaceSlow s b w = Ok (mk buf buf spilled, w')
        /\ cap buf = l /\ len buf = 0).
Proof.
  intros Hcfg Hcap Hcase first l spilled w0.
  assert (Hlen : 0 <= len (Buf b)) by (unfold len; lia).
  assert (Heq : ensureSpaceSlow s b w
                = (buf <- getBuf l ;; ret (mk buf buf spilled)) w0).
  { unfold ensureSpaceSlow, l, spilled, w0, first.
    destruct (Z.eqb_spec (len (Buf b)) 0) as [E | E].
    - rewrite E. change (0 <? 0) with false. cbn [orb]. monad_simpl.
      destruct (Z.ltb_spec (MaxSize (config w)) (StartSize (config w)));
        [lia | reflexivity].
    - destruct (Z.ltb_spec 0 (len (Buf b))); [| lia]. cbn [orb].
      assert (Hl : (if MaxSize (config w) <? wrap64 (cap (toPool b) * 2)
                    then MaxSize (config w) else wrap64 (cap (toPool b) * 2))
                   = Z.min (MaxSize (config w)) (2 * cap (toPool b))).
      { rewrite wrap64_id by lia.
        destruct (Z.ltb_spec (MaxSize (config w)) (cap (toPool b) * 2)); lia. }
      destruct (cap (toPool b) =? cap (Buf b)); cbn [negb]; monad_simpl.
      + rewrite Hl. reflexivity.
      + rewrite putBuf_config, Hl. reflexivity. }
  split; [exact Heq |]. split.
  - unfold l, spec_requested. intros [Hf | Hsame].
    + rewrite Hf. reflexivity.
    + destruct first; [reflexivity |]. rewrite Hsame. reflexivity.
  - intros Hok Hl. rewrite Heq. monad_simpl.
    assert (Hok0 : pool_ok w0).
    { unfold w0. destruct (_ || _); [| apply putBuf_pool_ok]; exact Hok. }
    destruct (getBuf_ok l w0 Hok0 Hl) as (buf & w' & -> & Hc & He & _).
    exists buf, w'. unfold len. rewrite He. auto.
Qed.

Lemma C5_growth_policy_witness :
  exists buf w',
    ensureSpaceSlow 1 reallocated_buffer init_world
    = Ok (mk buf buf [Buf reallocated_buffer], w')
    /\ cap buf = 256 /\ len buf = 0.
Proof.
  apply (C5_growth_policy 1 reallocated_buffer init_world).
  - vm_compute. discriminate.
  - vm_compute. split; [discriminate | reflexivity].
  - left. vm_compute. reflexivity.
  - exact init_world_pool_ok.
  - vm_compute. discriminate.
Defined.

End growth_policy.

(** ** Flushing a buffer to a sink *)

Section flush.
Import Buffer.
Context {W : Type} `{!Writer W}.

(** C6. When a write of a spilled chunk fails, [WriteTo] returns the error
    and the count so far but releases nothing and does not reset the
    buffer: the package state and the buffer are unchanged, the chunks
    already written included.  [DumpTo] in the same situation releases
    every chunk and resets the buffer. *)
Theorem C6_WriteTo_error_keeps_chunks (snk snk' : W) (b : t) (w : World)
    (n : Z) (e : error) :
  WriteTo_spilled (bufs b) 0 snk = (n, Some e, snk') ->
  WriteTo snk b w = Ok (n, Some e, snk', b, w)
  /\ exists n' err' snk'',
       DumpTo snk b w
       = Ok (n', err', snk'', zero,
             putBuf (toPool b) (release_all (bufs b) w)).
Proof.
  intros Hsp. split.
  - unfold WriteTo. rewrite Hsp. reflexivity.
  - unfold DumpTo.
    destruct (net_Buffers_WriteTo _ 0 snk) as [[n' err'] snk''].
    exists n', err', snk''. reflexivity.
Qed.

End flush.

Lemma C6_WriteTo_error_keeps_chunks_witness :
  let snk := mkSink [] 3 in
  let released := putBuf (Buffer.toPool buffer_2000)
                    (release_all (Buffer.bufs buffer_2000) init_world) in
  (Buffer.WriteTo (Writer0 := sink_Writer) snk buffer_2000 init_world
   = Ok (896, Some (sink_err 5), mkSink (replicate 896 "a"%byte) 0,
         buffer_2000, init_world)
   /\ exists n' err' snk'',
        Buffer.DumpTo (Writer0 := sink_Writer) snk buffer_2000 init_world
        = Ok (n', err', snk'', Buffer.zero, released))
  /\ occupancy init_world 512 = 0%nat
  /\ occupancy released 512 = 1%nat.
Proof.
  intros snk released. split.
  - apply (C6_WriteTo_error_keeps_chunks (Writer0 := sink_Writer)).
    vm_compute. reflexivity.
  - split; vm_compute; reflexivity.
Defined.

(** ** Closed cursors and [Bytes] *)

Section closed_and_bytes.
Import recyclableReadCloser cursor_spec.

Lemma Len_value_nonneg (c : t) (w : World) :
  Len_value c w = 0 \/ 0 < Len_value c w.
Proof.
  unfold Len_value. destruct (Z.ltb_spec 0 (size c)); [right; assumption |].
  pose proof (total_len_nonneg (data_of c w)). lia.
Qed.

Lemma fold_append_elems `{!Runtime} (l : list slice) (bf : slice) :
  elems (fold_left (fun bf buf => append bf (elems buf)) l bf)
  = elems bf ++ contents l.
Proof.
  unfold contents. revert bf.
  induction l as [|x l IH]; intros bf; simpl.
  - rewrite app_nil_r. reflexivity.
  - rewrite IH. unfold append.
    destruct (len bf + blen (elems x) <=? cap bf); simpl;
      rewrite <- app_assoc; reflexivity.
Qed.

Lemma Len_value_stable (p : loc) (c : t) (w : World) :
  Len_value (Len_cached c w) (put_reader p (Len_cached c w) w)
  = Len_value c w.
Proof.
  unfold Len_value, Len_cached, data_of.
  destruct (Z.ltb_spec 0 (size c)) as [Hs | Hs].
  - destruct (Z.ltb_spec 0 (size c)); [reflexivity | lia].
  - destruct (bufs c) as [s|] eqn:Eb.
    + cbn [size bufs set_size put_reader set_readers recyclables].
      rewrite Eb. destruct (0 <? _); reflexivity.
    + destruct (Z.ltb_spec 0 (size c)); [lia |]. rewrite Eb. reflexivity.
Qed.

(** C3, as stated, fails once the cursor has consumed all its bytes: a
    closed cursor at the end of "abcdef" answers [Read] with [io.EOF] and
    [WriteTo] with [(0, nil)], not with the closed-reader error. *)
Lemma C3_counterexample :
  let w := world_after (Close (Some first_loc)) (abcdef_read 6) in
  isClose (reader_at first_loc w) = true
  /\ Read 1 (Some first_loc) ["000"%byte] w
     = Ok (0, Some io_EOF, ["000"%byte], w)
  /\ WriteTo (Writer0 := sink_Writer) 1 (Some first_loc) (mkSink [] 1) w
     = Ok (0, None, mkSink [] 1, w).
Proof. vm_compute. repeat split; reflexivity. Qed.

(** C3, amended.  [Close] marks the cursor closed.  On a closed cursor
    whose consumed-byte count is below its total length, [Read] and
    [WriteTo] return the closed-reader error and transfer nothing; when the
    cursor has consumed all its bytes, [Read] returns end-of-stream and
    [WriteTo] returns [(0, nil)].  Neither call reopens the cursor or moves
    it, so the same holds for every later call. *)
Theorem C3_closed_cursor {W : Type} `{!Writer W} (fuel : nat) (p : loc)
    (c : t) (dst : list byte) (snk : W) (w : World) :
  readers w !! p = Some c ->
  isClose c = true ->
  let w' := put_reader p (Len_cached c w) w in
  Read fuel (Some p) dst w
  = Ok (0, Some (if offsetLen c <? Len_value c w then closedErr else io_EOF),
        dst, w')
  /\ WriteTo fuel (Some p) snk w
     = Ok (0, (if offsetLen c <? Len_value c w then Some closedErr else None),
           snk, w')
  /\ isClose (reader_at p w') = true
  /\ offsetLen (reader_at p w') = offsetLen c
  /\ Len_value (reader_at p w') w' = Len_value c w
  /\ (forall w0 c0, readers w0 !! p = Some c0 ->
        Close (Some p) w0 = Ok (None, put_reader p (set_isClose true c0) w0)
        /\ isClose (reader_at p (put_reader p (set_isClose true c0) w0)) = true).
Proof.
  intros Hp Hclosed w'.
  pose proof (Len_cached_fields c w) as (Hb & Ho & Hi & Hol & Hcl & Hr).
  assert (Hat : reader_at p w' = Len_cached c w) by apply reader_at_put.
  assert (Hload : default zero (readers w' !! p) = Len_cached c w)
    by exact Hat.
  split; [| split; [| split; [| split; [| split]]]].
  - unfold Read. monad_simpl. unfold load. monad_simpl.
    rewrite (Len_eq p c w Hp), Hp. cbn [default id]. fold w'.
    destruct (Z.leb_spec (Len_value c w) (offsetLen c));
      destruct (Z.ltb_spec (offsetLen c) (Len_value c w));
      try lia; [reflexivity |].
    cbv beta. rewrite Hload, Hcl, Hclosed. reflexivity.
  - unfold WriteTo. monad_simpl. unfold load. monad_simpl.
    rewrite (Len_eq p c w Hp), Hp. cbn [default id]. fold w'.
    destruct (Z.leb_spec (Len_value c w) (offsetLen c));
      destruct (Z.ltb_spec (offsetLen c) (Len_value c w));
      try lia; [reflexivity |].
    cbv beta. rewrite Hload, Hcl, Hclosed. reflexivity.
  - rewrite Hat, Hcl. exact Hclosed.
  - rewrite Hat, Hol. reflexivity.
  - rewrite Hat. apply Len_value_stable.
  - intros w0 c0 H0. split.
    + unfold Close. monad_simpl. unfold load, store. monad_simpl.
      rewrite H0. reflexivity.
    + rewrite reader_at_put. reflexivity.
Qed.

Lemma C3_closed_cursor_witness :
  let w := world_after (Close (Some first_loc)) (abcdef_read 3) in
  Read 1 (Some first_loc) ["000"%byte] w
  = Ok (0, Some closedErr, ["000"%byte], w)
  /\ WriteTo (Writer0 := sink_Writer) 1 (Some first_loc) (mkSink [] 1) w
     = Ok (0, Some closedErr, mkSink [] 1, w).
Proof.
  intros w.
  assert (Hp : readers w !! first_loc
               = Some (mk (Some first_loc) 3 0 3 6 true false))
    by (vm_compute; reflexivity).
  destruct (C3_closed_cursor (Writer0 := sink_Writer) 1 first_loc _
              ["000"%byte] (mkSink [] 1) w Hp eq_refl)
    as (HR & HW & _).
  change (Len_cached _ w) with (mk (Some first_loc) 3 0 3 6 true false)
    in HR, HW.
  rewrite (put_reader_same _ _ _ Hp) in HR, HW.
  split; [exact HR | exact HW].
Defined.

(** What [Bytes] returns on a cursor that still holds its chunk set. *)
Lemma Bytes_elems `{!Runtime} (p s : loc) (c : t) (d : recyclable.t)
    (w : World) :
  readers w !! p = Some c ->
  bufs c = Some s ->
  recyclables w !! s = Some d ->
  exists bf,
    Bytes (Some p) w = Ok (bf, put_reader p (Len_cached c w) w)
    /\ elems bf = contents (recyclable.data d).
Proof.
  intros Hp Hb Hs. set (w' := put_reader p (Len_cached c w) w).
  assert (Hdata : data_of c w = recyclable.data d).
  { unfold data_of. rewrite Hb, Hs. reflexivity. }
  unfold Bytes. monad_simpl. unfold load. monad_simpl.
  rewrite (Len_eq p c w Hp), Hp. cbn [default id]. fold w'.
  destruct (Z.eqb_spec (Len_value c w) 0) as [E | E].
  - exists nil_slice. split; [reflexivity |].
    unfold Len_value in E. rewrite Hdata in E.
    destruct (Z.ltb_spec 0 (size c)); [lia |].
    rewrite total_len_contents in E. unfold blen in E.
    destruct (contents (recyclable.data d)); [reflexivity | simpl in E; lia].
  - unfold make.
    destruct (Z.ltb_spec (Len_value c w) 0) as [Hneg | _];
      [destruct (Len_value_nonneg c w); lia |].
    rewrite Hb. unfold recyclable.load. monad_simpl.
    replace (recyclables w' !! s) with (Some d) by (symmetry; exact Hs).
    eexists. split; [reflexivity |].
    rewrite fold_append_elems. reflexivity.
Qed.

(** C9, as stated, fails: [Bytes] does not stop at what is left to read.
    After 3 of the 6 bytes of "abcdef" have been read it still returns all
    6 bytes. *)
Lemma C9_counterexample :
  offsetLen (reader_at first_loc (abcdef_read 3)) = 3
  /\ exists bf w',
       Bytes (H := exact_growth) (Some first_loc) (abcdef_read 3)
       = Ok (bf, w')
       /\ elems bf = abcdef
       /\ elems bf <> drop 3 abcdef.
Proof.
  split; [vm_compute; reflexivity |].
  eexists _, _. split; [vm_compute; reflexivity |].
  split; [reflexivity | discriminate].
Qed.

(** C9, amended.  On a cursor that has not been recycled, [Bytes]
    materializes the entire content of the chunk set as one contiguous
    byte value, the bytes already consumed included, and leaves the
    position of the cursor (chunk index, offset, consumed count)
    unchanged: only the cached length of the cursor may be set. *)
Theorem C9_Bytes_whole_content `{!Runtime} (p s : loc) (c : t)
    (d : recyclable.t) (w : World) :
  readers w !! p = Some c ->
  bufs c = Some s ->
  recyclables w !! s = Some d ->
  let w' := put_reader p (Len_cached c w) w in
  exists bf,
    Bytes (Some p) w = Ok (bf, w')
    /\ elems bf = contents (recyclable.data d)
    /\ index (reader_at p w') = index c
    /\ offset (reader_at p w') = offset c
    /\ offsetLen (reader_at p w') = offsetLen c.
Proof.
  intros Hp Hb Hs w'.
  pose proof (Len_cached_fields c w) as (_ & Ho & Hi & Hol & _).
  assert (Hat : reader_at p w' = Len_cached c w) by apply reader_at_put.
  destruct (Bytes_elems p s c d w Hp Hb Hs) as (bf & HB & He).
  exists bf. rewrite Hat, Hi, Ho, Hol. auto.
Qed.

Lemma C9_Bytes_whole_content_witness :
  exists bf,
    Bytes (H := exact_growth) (Some first_loc) (abcdef_read 3)
    = Ok (bf, abcdef_read 3)
    /\ elems bf = abcdef
    /\ offsetLen (reader_at first_loc (abcdef_read 3)) = 3.
Proof.
  assert (Hp : readers (abcdef_read 3) !! first_loc
               = Some (mk (Some first_loc) 3 0 3 6 false false))
    by (vm_compute; reflexivity).
  destruct (C9_Bytes_whole_content (H := exact_growth) first_loc first_loc _
              (recyclable.mk [mkSlice abcdef 128] 1) (abcdef_read 3)
              Hp eq_refl)
    as (bf & HB & He & _ & _ & Hol).
  { vm_compute. reflexivity. }
  change (Len_cached _ (abcdef_read 3))
    with (mk (Some first_loc) 3 0 3 6 false false) in HB, Hol.
  rewrite (put_reader_same _ _ _ Hp) in HB, Hol.
  exists bf. split; [exact HB |]. split; [exact He | exact Hol].
Defined.

End closed_and_bytes.

(** ** Sharing a chunk set *)

Section sharing.
Import recyclableReadCloser cursor_spec.

(** C7. [Clone] of a cursor that still holds its chunk set adds exactly
    one to the set's reference count and returns a new cursor over the
    same set at position 0, neither closed nor recycled, whatever the flags
    and the position of the source.  The clone is fresh: its struct is
    taken off the struct pool, which loses this one entry, or, when that
    pool is empty, is newly allocated; so it is none of the cursors in use (those that
    exist and are not in the struct pool), and every other cursor, the
    source among them, every other chunk set and the chunk pool are left
    as they were.  [Bytes] of the clone and [Bytes] of the source are the
    same bytes, the whole content of the set, however much the source has
    read. *)
Theorem C7_Clone `{!Runtime} (p s : loc) (c : t) (d : recyclable.t)
    (w : World) :
  readers w !! p = Some c ->
  bufs c = Some s ->
  recyclables w !! s = Some d ->
  p ∉ recyclableReadCloserPool w ->
  0 < recyclable.isRecycle d < 2 ^ 63 - 1 ->
  exists q w',
    Clone (Some p) w = Ok (Some q, w')
    /\ q <> p
    /\ ((exists l1 l2,
           recyclableReadCloserPool w = l1 ++ q :: l2
           /\ recyclableReadCloserPool w' = l1 ++ l2)
        \/ (recyclableReadCloserPool w = []
            /\ recyclableReadCloserPool w' = []
            /\ readers w !! q = None))
    /\ (forall r, is_Some (readers w !! r) ->
                  r ∉ recyclableReadCloserPool w -> r <> q)
    /\ (forall r, r <> q -> readers w' !! r = readers w !! r)
    /\ recyclables w'
       = <[s := recyclable.mk (recyclable.data d) (recyclable.isRecycle d + 1)]>
           (recyclables w)
    /\ recyclables w' !! s
       = Some (recyclable.mk (recyclable.data d) (recyclable.isRecycle d + 1))
    /\ readers w' !! q = Some (mk (Some s) 0 0 0 0 false false)
    /\ readers w' !! p = Some c
    /\ buffers w' = buffers w
    /\ recyclablePool w' = recyclablePool w
    /\ config w' = config w
    /\ exists bq wq bp wp,
         Bytes (Some q) w' = Ok (bq, wq)
         /\ Bytes (Some p) w' = Ok (bp, wp)
         /\ elems bq = elems bp
         /\ elems bq = contents (recyclable.data d).
Proof.
  intros Hp Hb Hs Hpool Hcount.
  set (d' := recyclable.mk (recyclable.data d) (recyclable.isRecycle d + 1)).
  set (fresh_c := mk (Some s) 0 0 0 0 false false).
  assert (Hclone : exists q w',
             Clone (Some p) w = Ok (Some q, w')
             /\ q <> p
             /\ ((exists l1 l2,
                    recyclableReadCloserPool w = l1 ++ q :: l2
                    /\ recyclableReadCloserPool w' = l1 ++ l2)
                 \/ (recyclableReadCloserPool w = []
                     /\ recyclableReadCloserPool w' = []
                     /\ readers w !! q = None))
             /\ readers w' = <[q := fresh_c]> (readers w)
             /\ recyclables w' = <[s := d']> (recyclables w)
             /\ buffers w' = buffers w
             /\ recyclablePool w' = recyclablePool w
             /\ config w' = config w).
  { unfold Clone. monad_simpl. unfold load. monad_simpl.
    rewrite Hp. cbn [default id]. rewrite Hb.
    unfold recyclable.isRecycle_Add, recyclable.load, recyclable.store.
    monad_simpl. rewrite Hs. cbn [default id].
    rewrite wrap64_id by lia. fold d'.
    unfold pool_Get, store. monad_simpl.
    cbn [recyclableReadCloserPool set_recyclables readers].
    destruct (recyclableReadCloserPool w) as [|q ps] eqn:Epool.
    - set (q := fresh (dom (readers w))).
      assert (Hnone : readers w !! q = None).
      { apply not_elem_of_dom. apply is_fresh. }
      assert (Hq : q <> p) by (intros Heq; rewrite Heq, Hp in Hnone; discriminate).
      eexists q, _. split; [reflexivity |].
      cbn [recyclables readers buffers set_readers set_recyclables
           recyclableReadCloserPool recyclablePool config].
      split; [exact Hq |].
      split; [right; rewrite Epool; auto |].
      split; [apply insert_insert_eq |].
      repeat split; reflexivity.
    - assert (Hq : q <> p).
      { intros ->. apply Hpool. left. }
      eexists q, _. split; [reflexivity |].
      cbn [recyclables readers buffers set_readers set_recyclables
           set_recyclableReadCloserPool recyclableReadCloserPool
           recyclablePool config].
      split; [exact Hq |].
      split; [left; exists [], ps; split; reflexivity |].
      repeat split; reflexivity. }
  destruct Hclone
    as (q & w' & HC & Hq & Hfrom & Hrd & Hrc & Hbuf & Hrp & Hcfg).
  assert (Hq' : readers w' !! q = Some fresh_c)
    by (rewrite Hrd; apply lookup_insert_eq).
  assert (Hp' : readers w' !! p = Some c)
    by (rewrite Hrd, lookup_insert_ne by exact Hq; exact Hp).
  assert (Hs' : recyclables w' !! s = Some d')
    by (rewrite Hrc; apply lookup_insert_eq).
  exists q, w'. split; [exact HC |]. split; [exact Hq |].
  split; [exact Hfrom |].
  split.
  { intros r [cr Hr] Hlive ->.
    destruct Hfrom as [(l1 & l2 & Hhead & _) | (_ & _ & Hnone)].
    - apply Hlive. rewrite Hhead. apply elem_of_app. right. left.
    - rewrite Hnone in Hr. discriminate. }
  split; [intros r Hr; rewrite Hrd; apply lookup_insert_ne; congruence |].
  split; [exact Hrc |]. split; [exact Hs' |]. split; [exact Hq' |].
  split; [exact Hp' |]. split; [exact Hbuf |]. split; [exact Hrp |].
  split; [exact Hcfg |].
  destruct (Bytes_elems q s fresh_c d' w' Hq' eq_refl Hs') as (bq & HBq & Heq).
  destruct (Bytes_elems p s c d' w' Hp' Hb Hs') as (bp & HBp & Hep).
  eexists bq, _, bp, _. split; [exact HBq |]. split; [exact HBp |].
  split; [congruence | exact Heq].
Qed.

Lemma C7_Clone_witness :
  exists q w',
    Clone (Some first_loc) one_recycled = Ok (Some q, w')
    /\ q <> first_loc
    /\ recyclableReadCloserPool one_recycled = [q]
    /\ recyclableReadCloserPool w' = []
    /\ readers w' !! 3%positive = readers one_recycled !! 3%positive
    /\ readers w' !! q = Some (mk (Some first_loc) 0 0 0 0 false false)
    /\ exists bq wq bp wp,
         Bytes (H := exact_growth) (Some q) w' = Ok (bq, wq)
         /\ Bytes (H := exact_growth) (Some first_loc) w' = Ok (bp, wp)
         /\ elems bq = elems bp.
Proof.
  destruct (C7_Clone (H := exact_growth) first_loc first_loc
              (reader_at first_loc one_recycled)
              (default recyclable.zero (recyclables one_recycled !! first_loc))
              one_recycled)
    as (q & w' & HC & Hq & Hfrom & _ & Hothers & _ & _ & Hq' & _ & _ & _ & _
        & bq & wq & bp & wp & HBq & HBp & Hsame & _).
  - vm_compute. reflexivity.
  - vm_compute. reflexivity.
  - vm_compute. reflexivity.
  - change (recyclableReadCloserPool one_recycled) with [2%positive].
    intros Hin. apply list_elem_of_In in Hin.
    destruct Hin as [Hin | []]. discriminate.
  - vm_compute. split; reflexivity.
  - change (recyclableReadCloserPool one_recycled) with [2%positive] in *.
    assert (Hq2 : q = 2%positive /\ recyclableReadCloserPool w' = []).
    { destruct Hfrom as [(l1 & l2 & Hhead & Hrest) | (Hnil & _)];
        [| discriminate].
      destruct l1 as [|x [|y l1]]; [| | destruct l1; discriminate].
      - injection Hhead as <- <-. split; [reflexivity | exact Hrest].
      - discriminate. }
    destruct Hq2 as (-> & Hpool').
    exists 2%positive, w'. split; [exact HC |]. split; [exact Hq |].
    split; [reflexivity |]. split; [exact Hpool' |].
    split; [apply Hothers; discriminate |]. split; [exact Hq' |].
    exists bq, wq, bp, wp. split; [exact HBq |]. split; [exact HBp |].
    exact Hsame.
Defined.

(** The struct pool hands a recycled struct out again: after [Recycle] of
    the cursor at address 2, the next [Clone] returns address 2, with its
    flags reset.  A cursor is a struct from its creation to its
    [Recycle]. *)
Example Clone_reuses_recycled_struct :
  exists w1 w2,
    Recycle (Some 2%positive) three_cursors = Ok (tt, w1)
    /\ recycled w1 2%positive
    /\ Clone (Some first_loc) w1 = Ok (Some 2%positive, w2)
    /\ holds first_loc w2 2%positive.
Proof.
  eexists _, _. split; [vm_compute; reflexivity |].
  split; [eexists; split; [vm_compute; reflexivity | reflexivity] |].
  split; [vm_compute; reflexivity |].
  eexists. split; [vm_compute; reflexivity | split; reflexivity].
Qed.

End sharing.

(** ** Recycling *)

Section recycling.
Import recyclableReadCloser cursor_spec.















(** *** The recycled mark of a cursor *)

































End recycling.

(** ** Appending and building *)

Section appending.
Import Buffer.
Context {rt : Runtime}.

Lemma append_elems (s : slice) (data : list byte) :
  elems (append s data) = elems s ++ data.
Proof. unfold append. destruct (_ <=? _); reflexivity. Qed.

(** A slice never holds more than its capacity. *)
Lemma append_wf (s : slice) (data : list byte) :
  len s <= cap s -> len (append s data) <= cap (append s data).
Proof.
  intros Hwf. unfold append.
  destruct (Z.leb_spec (len s + blen data) (cap s)) as [Hfit | Hgrow];
    unfold len, blen in *; cbn [elems cap]; rewrite length_app.
  - lia.
  - pose proof (growcap_ge (cap s)
                  (Z.of_nat (length (elems s)) + Z.of_nat (length data))).
    lia.
Qed.

Lemma append_fits (s : slice) (data : list byte) :
  len s + blen data <= cap s ->
  append s data = mkSlice (elems s ++ data) (cap s).
Proof.
  intros H. unfold append.
  destruct (Z.leb_spec (len s + blen data) (cap s)); [reflexivity | lia].
Qed.

Lemma contents_app (l1 l2 : list slice) :
  contents (l1 ++ l2) = contents l1 ++ contents l2.
Proof. unfold contents. rewrite map_app, concat_app. reflexivity. Qed.

Lemma Size_contents (b : t) : Size b = blen (Buffer_contents b).
Proof.
  unfold Size, Buffer_contents, blen. rewrite total_len_acc.
  rewrite total_len_contents, length_app. unfold blen, len. lia.
Qed.

(** [EnsureSpace(1)] succeeds, keeps the bytes of the buffer and leaves at
    least one free byte in the active chunk. *)
Lemma EnsureSpace_one (b : t) (w : World) :
  valid_config (config w) -> pool_ok w -> buf_inv (config w) b ->
  exists b' w',
    EnsureSpace 1 b w = Ok (b', w')
    /\ config w' = config w /\ pool_ok w'
    /\ buf_inv (config w) b'
    /\ Buffer_contents b' = Buffer_contents b
    /\ len (Buf b') < cap (Buf b').
Proof.
  intros (Hstart & Hmax0 & Hmax) Hok (Hlen & Hpool & Hcap).
  unfold EnsureSpace.
  destruct (Z.ltb_spec (cap (Buf b) - len (Buf b)) 1) as [Hfull | Hfree].
  2: { exists b, w. unfold ret, buf_inv. repeat split; auto; lia. }
  assert (Hl0 : 0 <= len (Buf b)) by (unfold len; lia).
  unfold ensureSpaceSlow.
  destruct (Z.ltb_spec 0 (len (Buf b))) as [Hpos | Hzero].
  - rewrite Hpool, Z.eqb_refl. cbn [negb]. monad_simpl.
    rewrite wrap64_id by lia.
    set (l := if MaxSize (config w) <? cap (Buf b) * 2
              then MaxSize (config w) else cap (Buf b) * 2).
    assert (Hl : 0 < l <= MaxSize (config w)).
    { unfold l. destruct (Z.ltb_spec (MaxSize (config w)) (cap (Buf b) * 2));
        lia. }
    destruct (getBuf_ok l w Hok ltac:(lia))
      as (buf & w' & -> & Hc & He & Hcfg & Hok').
    exists (mk buf buf (bufs b ++ [Buf b])), w'.
    unfold buf_inv, Buffer_contents, len. cbn [Buf toPool bufs].
    rewrite He, Hc, contents_app. cbn [length].
    unfold contents at 2. cbn [map concat]. rewrite !app_nil_r.
    repeat split; auto; lia.
  - monad_simpl.
    set (l := if MaxSize (config w) <? StartSize (config w)
              then MaxSize (config w) else StartSize (config w)).
    assert (Hl : 0 < l <= MaxSize (config w)).
    { unfold l.
      destruct (Z.ltb_spec (MaxSize (config w)) (StartSize (config w))); lia. }
    destruct (getBuf_ok l w Hok ltac:(lia))
      as (buf & w' & -> & Hc & He & Hcfg & Hok').
    exists (mk buf buf (bufs b)), w'.
    assert (Hempty : elems (Buf b) = []).
    { unfold len in Hzero. destruct (elems (Buf b)); [reflexivity |].
      simpl in Hzero. lia. }
    unfold buf_inv, Buffer_contents, len. cbn [Buf toPool bufs].
    rewrite He, Hc, Hempty. cbn [length].
    repeat split; auto; lia.
Qed.

(** Appending within the free space of the active chunk. *)
Lemma append_in_place (data : list byte) (b : t) (w : World) :
  pool_ok w -> buf_inv (config w) b ->
  blen data <= cap (Buf b) - len (Buf b) ->
  appended data b w (Ok (set_Buf (append (Buf b) data) b, w)).
Proof.
  intros Hok (Hlen & Hpool & Hcap) Hfit.
  exists (set_Buf (append (Buf b) data) b), w.
  rewrite append_fits by lia.
  unfold buf_inv, Buffer_contents, set_Buf, len. cbn [Buf toPool bufs elems cap].
  rewrite length_app, app_assoc. unfold len, blen in *.
  repeat split; auto; lia.
Qed.

Lemma appended_nil (b : t) (w : World) :
  pool_ok w -> buf_inv (config w) b -> appended [] b w (Ok (b, w)).
Proof.
  intros Hok Hinv. exists b, w. rewrite app_nil_r.
  split; [reflexivity |]. split; [reflexivity |]. split; [exact Hok |].
  split; [exact Hinv | reflexivity].
Qed.

Lemma appended_trans (d1 d2 : list byte) (b b1 : t) (w w1 : World) r :
  config w1 = config w ->
  Buffer_contents b1 = Buffer_contents b ++ d1 ->
  appended d2 b1 w1 r ->
  appended (d1 ++ d2) b w r.
Proof.
  intros Hcfg Hc (b' & w' & -> & Hcfg' & Hok' & Hinv' & Hc').
  exists b', w'. rewrite Hcfg in Hcfg', Hinv'.
  split; [reflexivity |]. split; [exact Hcfg' |]. split; [exact Hok' |].
  split; [exact Hinv' |]. rewrite Hc', Hc, app_assoc. reflexivity.
Qed.

(** The slow path terminates within [length data] rounds: every round
    appends at least one byte. *)
Lemma appendBytesSlow_ok (fuel : nat) :
  forall (data : list byte) (b : t) (w : World),
    (length data <= fuel)%nat ->
    valid_config (config w) -> pool_ok w -> buf_inv (config w) b ->
    appended data b w (appendBytesSlow fuel data b w).
Proof.
  induction fuel as [|fuel IH]; intros data b w Hfuel Hcfg Hok Hinv.
  - destruct data; [| simpl in Hfuel; lia].
    apply appended_nil; assumption.
  - cbn [appendBytesSlow].
    destruct (Z.ltb_spec 0 (blen data)) as [Hpos | Hnil].
    2: { unfold blen in Hnil. destruct data; [| simpl in Hnil; lia].
         apply appended_nil; assumption. }
    destruct (EnsureSpace_one b w Hcfg Hok Hinv)
      as (b1 & w1 & HE & Hcfg1 & Hok1 & Hinv1 & Hc1 & Hfree).
    unfold bind at 1. rewrite HE.
    set (sz0 := cap (Buf b1) - len (Buf b1)).
    set (sz := if blen data <? sz0 then blen data else sz0).
    assert (Hsz : 0 < sz <= blen data /\ sz <= sz0).
    { unfold sz. destruct (Z.ltb_spec (blen data) sz0); unfold sz0 in *; lia. }
    unfold slice_to, slice_from.
    destruct (Z.leb_spec 0 sz); [| lia].
    destruct (Z.leb_spec sz (blen data)); [| lia].
    cbn [andb]. monad_simpl.
    rewrite <- (take_drop (Z.to_nat sz) data) at 1.
    rewrite <- Hcfg1 in Hinv1.
    assert (Hfront : blen (take (Z.to_nat sz) data) = sz).
    { unfold blen in *. rewrite length_take. lia. }
    destruct (append_in_place (take (Z.to_nat sz) data) b1 w1 Hok1 Hinv1)
      as (b2 & w2 & [= <- <-] & _ & _ & Hinv2 & Hc2); [fold sz0; lia |].
    apply (appended_trans (take (Z.to_nat sz) data) (drop (Z.to_nat sz) data)
             b (set_Buf (append (Buf b1) (take (Z.to_nat sz) data)) b1) w w1);
      [exact Hcfg1 | |].
    + rewrite Hc2, Hc1. reflexivity.
    + apply IH; [| rewrite Hcfg1; exact Hcfg | exact Hok1 | exact Hinv2].
      rewrite length_drop. unfold blen in *. lia.
Qed.

Lemma appendStringSlow_eq (fuel : nat) :
  forall (data : list byte) (b : t) (w : World),
    appendStringSlow fuel data b w = appendBytesSlow fuel data b w.
Proof.
  induction fuel as [|fuel IH]; intros data b w; [reflexivity |].
  cbn [appendStringSlow appendBytesSlow].
  destruct (0 <? blen data); [| reflexivity].
  unfold bind at 1 4. destruct (EnsureSpace 1 b w) as [[b1 w1] | |];
    [| reflexivity | reflexivity].
  unfold bind at 1 3. destruct (lift (slice_to data _) w1) as [[front w2] | |];
    [| reflexivity | reflexivity].
  unfold bind. destruct (lift (slice_from data _) w2) as [[rest w3] | |];
    [| reflexivity | reflexivity].
  apply IH.
Qed.

Lemma AppendBytes_ok (fuel : nat) (data : list byte) (b : t) (w : World) :
  (length data <= fuel)%nat ->
  valid_config (config w) -> pool_ok w -> buf_inv (config w) b ->
  appended data b w (AppendBytes fuel data b w).
Proof.
  intros Hfuel Hcfg Hok Hinv. unfold AppendBytes.
  destruct (Z.leb_spec (blen data) (cap (Buf b) - len (Buf b))).
  - apply append_in_place; assumption.
  - apply appendBytesSlow_ok; assumption.
Qed.

Lemma AppendString_ok (fuel : nat) (data : list byte) (b : t) (w : World) :
  (length data <= fuel)%nat ->
  valid_config (config w) -> pool_ok w -> buf_inv (config w) b ->
  appended data b w (AppendString fuel data b w).
Proof.
  intros Hfuel Hcfg Hok Hinv. unfold AppendString.
  destruct (Z.leb_spec (blen data) (cap (Buf b) - len (Buf b))).
  - apply append_in_place; assumption.
  - rewrite appendStringSlow_eq. apply appendBytesSlow_ok; assumption.
Qed.

Lemma AppendByte_ok (data : byte) (b : t) (w : World) :
  valid_config (config w) -> pool_ok w -> buf_inv (config w) b ->
  appended [data] b w (AppendByte data b w).
Proof.
  intros Hcfg Hok Hinv. unfold AppendByte.
  destruct (EnsureSpace_one b w Hcfg Hok Hinv)
    as (b1 & w1 & HE & Hcfg1 & Hok1 & Hinv1 & Hc1 & Hfree).
  unfold bind. rewrite HE. unfold ret.
  rewrite <- Hcfg1 in Hinv1.
  apply (appended_trans [] [data] b b1 w w1);
    [exact Hcfg1 | rewrite app_nil_r; exact Hc1 |].
  apply append_in_place; [exact Hok1 | exact Hinv1 |].
  unfold blen. cbn [length]. lia.
Qed.

Lemma run_ops_ok (fuel : nat) (ops : list append_op) :
  forall (b : t) (w : World),
    Forall (fun o => (length (payload o) <= fuel)%nat) ops ->
    valid_config (config w) -> pool_ok w -> buf_inv (config w) b ->
    appended (concat (map payload ops)) b w (run_ops fuel ops b w).
Proof.
  induction ops as [|o ops IH]; intros b w Hfuel Hcfg Hok Hinv.
  - apply appended_nil; assumption.
  - apply Forall_cons in Hfuel as [Ho Hfuel].
    cbn [run_ops map concat].
    assert (Hstep : appended (payload o) b w (run_op fuel o b w)).
    { destruct o; cbn [run_op payload] in *.
      - apply AppendByte_ok; assumption.
      - apply AppendBytes_ok; assumption.
      - apply AppendString_ok; assumption. }
    destruct Hstep as (b1 & w1 & HR & Hcfg1 & Hok1 & Hinv1 & Hc1).
    unfold bind. rewrite HR.
    apply (appended_trans _ _ b b1 w w1); [exact Hcfg1 | exact Hc1 |].
    apply IH; [exact Hfuel | rewrite Hcfg1; exact Hcfg | exact Hok1 |].
    rewrite Hcfg1. exact Hinv1.
Qed.

(** [BuildBytes] returns the bytes of the buffer and resets it. *)
Lemma BuildBytes_contents (reuse : list slice) (b : t) (w : World) :
  exists r w',
    BuildBytes reuse b w = Ok (r, zero, w')
    /\ elems r = Buffer_contents b.
Proof.
  unfold BuildBytes, Buffer_contents.
  destruct (bufs b) as [|x l] eqn:Eb.
  - exists (Buf b), w. split; reflexivity.
  - rewrite <- Eb.
    destruct (Z.eqb_spec (Z.of_nat (length (bufs b))) 0) as [E | _];
      [rewrite Eb in E; simpl in E; lia |].
    assert (Hmake : make (Size b) = Ok (mkSlice [] (Size b))).
    { unfold make. rewrite Size_contents. unfold blen.
      destruct (Z.ltb_spec (Z.of_nat (length (Buffer_contents b))) 0);
        [lia | reflexivity]. }
    assert (Hr : exists r0,
               (match reuse with
                | [r0] => if Size b <=? cap r0 then ret (reslice0 r0)
                          else lift (make (Size b))
                | _ => lift (make (Size b))
                end) w = Ok (r0, w) /\ elems r0 = []).
    { rewrite Hmake.
      destruct reuse as [|r0 [|? ?]];
        [eexists; split; reflexivity | | eexists; split; reflexivity].
      destruct (Size b <=? cap r0); eexists; split; reflexivity. }
    destruct Hr as (r0 & Hr & Hr0).
    unfold bind at 1. rewrite Hr. unfold range_do. monad_simpl.
    eexists _, _. split; [reflexivity |].
    rewrite append_elems, fold_append_elems, Hr0. reflexivity.
Qed.

(** C2. Whatever sequence of [AppendByte], [AppendBytes] and
    [AppendString] calls is run on a fresh buffer, with whatever total
    length, the calls succeed, [Size] is then the length of the
    concatenation of the appended byte strings in call order, and
    [BuildBytes] returns exactly that concatenation and resets the buffer.
    The configuration is assumed to have positive start and maximum sizes,
    the pool to hold what [putBuf] stores, and the slow paths to be given
    one round of fuel per byte. *)
Theorem C2_concatenation (fuel : nat) (ops : list append_op)
    (reuse : list slice) (w : World) :
  valid_config (config w) ->
  pool_ok w ->
  Forall (fun o => (length (payload o) <= fuel)%nat) ops ->
  exists b w' r w'',
    run_ops fuel ops zero w = Ok (b, w')
    /\ Size b = blen (concat (map payload ops))
    /\ BuildBytes reuse b w' = Ok (r, zero, w'')
    /\ elems r = concat (map payload ops).
Proof.
  intros Hcfg Hok Hfuel.
  assert (Hinv : buf_inv (config w) zero).
  { destruct Hcfg as (_ & Hmax & _). unfold buf_inv, len. cbn. lia. }
  destruct (run_ops_ok fuel ops zero w Hfuel Hcfg Hok Hinv)
    as (b & w' & HR & _ & _ & _ & Hc).
  change (Buffer_contents zero) with (@nil byte) in Hc. cbn [app] in Hc.
  destruct (BuildBytes_contents reuse b w') as (r & w'' & HB & Hr).
  exists b, w', r, w''.
  split; [exact HR |]. split; [rewrite Size_contents, Hc; reflexivity |].
  split; [exact HB |]. rewrite Hr. exact Hc.
Qed.

End appending.

Lemma C2_concatenation_witness :
  exists b w' r w'',
    run_ops (H := exact_growth) 40 hello_ops Buffer.zero small_world
    = Ok (b, w')
    /\ Buffer.Size b = 53
    /\ Buffer.BuildBytes (H := exact_growth) [] b w' = Ok (r, Buffer.zero, w'')
    /\ elems r = hello_world ++ ["!"%byte] ++ replicate 40 "x"%byte.
Proof.
  apply (C2_concatenation (rt := exact_growth) 40 hello_ops [] small_world).
  - vm_compute. repeat split; reflexivity || discriminate.
  - apply pool_okb_sound. vm_compute. reflexivity.
  - repeat constructor; vm_compute; discriminate.
Defined.

(** * Further properties of the package *)

(** ** The chunk pool *)

Section pool_more.

Lemma set_buffers_same w : set_buffers (buffers w) w = w.
Proof. destruct w; reflexivity. Qed.

(** X1. Releasing a chunk into an empty size class and then requesting a
    chunk of that capacity leaves the pool as it was: after the release
    the class holds one chunk, of that capacity and cut to length 0, and
    the request returns a chunk of that capacity and length 0 and leaves
    the class empty again, the rest of the package state untouched. *)
Theorem X1_putBuf_getBuf (buf : slice) (w : World) :
  PooledSize (config w) <= cap buf ->
  buffers w !! cap buf = Some [] ->
  buffers (putBuf buf w) !! cap buf = Some [reslice0 buf]
  /\ exists got,
       getBuf (cap buf) (putBuf buf w) = Ok (got, w)
       /\ cap got = cap buf /\ len got = 0.
Proof.
  intros Hsize Hc.
  assert (Hput : putBuf buf w
                 = set_buffers (<[cap buf := [reslice0 buf]]> (buffers w)) w).
  { unfold putBuf.
    destruct (Z.ltb_spec (cap buf) (PooledSize (config w))); [lia |].
    rewrite Hc. reflexivity. }
  rewrite Hput. cbn [buffers set_buffers].
  split; [apply lookup_insert_eq |].
  exists (reslice0 buf). split; [| split; reflexivity].
  unfold getBuf. cbn [config buffers set_buffers].
  destruct (Z.leb_spec (PooledSize (config w)) (cap buf)); [| lia].
  rewrite lookup_insert_eq. do 2 f_equal.
  unfold set_buffers at 1. cbn [config buffers recyclablePool
    recyclableReadCloserPool recyclables readers set_buffers].
  rewrite insert_insert_eq, insert_id by exact Hc.
  apply set_buffers_same.
Qed.

Lemma X1_putBuf_getBuf_witness :
  buffers (putBuf (mkSlice abcdef 512) init_world) !! 512
  = Some [mkSlice [] 512]
  /\ exists got,
       getBuf 512 (putBuf (mkSlice abcdef 512) init_world)
       = Ok (got, init_world)
       /\ cap got = 512 /\ len got = 0.
Proof.
  apply (X1_putBuf_getBuf (mkSlice abcdef 512) init_world).
  - vm_compute. discriminate.
  - vm_compute. reflexivity.
Defined.

(** The loop of [initBuffers] started at a positive [l] that exceeds the
    maximum size after [d] doublings. *)
Lemma initBuffers_loop_classes (d : nat) :
  forall (fuel : nat) (l : Z) (w : World),
    0 < l -> MaxSize (config w) < 2 ^ 62 ->
    MaxSize (config w) < l * 2 ^ Z.of_nat d ->
    (d <= fuel)%nat ->
    exists m,
      initBuffers_loop fuel l w = Ok (tt, set_buffers m w)
      /\ forall k,
           ((exists i : nat, k = l * 2 ^ Z.of_nat i /\ k <= MaxSize (config w))
            -> m !! k = Some [])
           /\ ((~ exists i : nat,
                   k = l * 2 ^ Z.of_nat i /\ k <= MaxSize (config w))
               -> m !! k = buffers w !! k).
Proof.
  induction d as [|d IH]; intros fuel l w Hl Hmax Hd Hfuel.
  - assert (Hexit : initBuffers_loop fuel l w = Ok (tt, w)).
    { destruct fuel; cbn [initBuffers_loop];
        (destruct (Z.leb_spec l (MaxSize (config w))); [cbn in Hd; lia |]);
        reflexivity. }
    exists (buffers w). rewrite set_buffers_same. split; [exact Hexit |].
    intros k. split; [| reflexivity].
    intros (i & -> & Hk). exfalso.
    assert (1 <= 2 ^ Z.of_nat i) by (apply Z.pow_le_mono_r with (b := 0); lia).
    cbn in Hd. nia.
  - destruct (Z.leb_spec l (MaxSize (config w))) as [Hin | Hout].
    + destruct fuel as [|fuel]; [lia |].
      cbn [initBuffers_loop].
      destruct (Z.leb_spec l (MaxSize (config w))); [| lia].
      rewrite wrap64_id by lia.
      set (w1 := set_buffers (<[l := []]> (buffers w)) w).
      destruct (IH fuel (l * 2) w1) as (m & Hrun & Hm); try (cbn; lia).
      { cbn [w1 config set_buffers].
        rewrite Nat2Z.inj_succ, Z.pow_succ_r in Hd by lia. lia. }
      exists m. split; [rewrite Hrun; reflexivity |].
      intros k. destruct (Hm k) as [Hin_k Hout_k]. split.
      * intros (i & -> & Hk). destruct i as [|i].
        -- rewrite Hout_k.
           ++ cbn [w1 buffers set_buffers]. rewrite Z.mul_1_r.
              apply lookup_insert_eq.
           ++ intros (j & Hj & _).
              assert (1 <= 2 ^ Z.of_nat j)
                by (apply Z.pow_le_mono_r with (b := 0); lia).
              cbn in Hj. nia.
        -- apply Hin_k. exists i. split; [| exact Hk].
           rewrite Nat2Z.inj_succ, Z.pow_succ_r by lia. lia.
      * intros Hnot. rewrite Hout_k.
        -- cbn [w1 buffers set_buffers]. apply lookup_insert_ne.
           intros <-. apply Hnot. exists 0%nat. cbn. split; lia.
        -- intros (j & -> & Hk). apply Hnot. exists (S j).
           split; [| exact Hk].
           rewrite Nat2Z.inj_succ, Z.pow_succ_r by lia. lia.
    + assert (Hexit : initBuffers_loop fuel l w = Ok (tt, w)).
      { destruct fuel; cbn [initBuffers_loop];
          (destruct (Z.leb_spec l (MaxSize (config w))); [lia |]);
          reflexivity. }
      exists (buffers w). rewrite set_buffers_same. split; [exact Hexit |].
      intros k. split; [| reflexivity].
      intros (i & -> & Hk). exfalso.
      assert (1 <= 2 ^ Z.of_nat i) by (apply Z.pow_le_mono_r with (b := 0); lia).
      nia.
Qed.

(** X2. [Init] with a positive pooled size and a maximum size below 2^62
    returns (62 rounds of its loop are enough), installs the configuration
    and makes every size class of it an empty free list; a free list of any
    other capacity, left from an earlier configuration, is kept with its
    chunks. *)
Theorem X2_Init_size_classes (fuel : nat) (cfg : PoolConfig) (w : World) :
  0 < PooledSize cfg ->
  MaxSize cfg < 2 ^ 62 ->
  (62 <= fuel)%nat ->
  exists m,
    Init fuel cfg w = Ok (tt, set_buffers m (set_config cfg w))
    /\ forall k,
         (size_class cfg k -> m !! k = Some [])
         /\ (~ size_class cfg k -> m !! k = buffers w !! k).
Proof.
  intros Hp Hmax Hfuel.
  unfold Init, initBuffers. monad_simpl. cbn [config set_config].
  destruct (initBuffers_loop_classes 62 fuel (PooledSize cfg) (set_config cfg w))
    as (m & Hrun & Hm); cbn [config set_config]; try assumption.
  { assert (2 ^ 62 <= PooledSize cfg * 2 ^ Z.of_nat 62) by (cbn; lia). lia. }
  exists m. split; [exact Hrun |]. exact Hm.
Qed.

Lemma X2_Init_size_classes_witness :
  exists m,
    Init 64 (mkPoolConfig 4 8 16) init_world
    = Ok (tt, set_buffers m (set_config (mkPoolConfig 4 8 16) init_world))
    /\ forall k,
         (size_class (mkPoolConfig 4 8 16) k -> m !! k = Some [])
         /\ (~ size_class (mkPoolConfig 4 8 16) k
             -> m !! k = buffers init_world !! k).
Proof.
  apply (X2_Init_size_classes 64 (mkPoolConfig 4 8 16) init_world).
  - reflexivity.
  - reflexivity.
  - repeat constructor.
Defined.

(** X3. With a pooled size of 0 and a maximum size that is not negative,
    [initBuffers] never leaves its loop: [l] stays 0, so no amount of fuel
    is enough. *)
Theorem X3_initBuffers_diverges (fuel : nat) (w : World) :
  PooledSize (config w) = 0 ->
  0 <= MaxSize (config w) ->
  initBuffers fuel w = OutOfFuel.
Proof.
  intros Hp Hmax. unfold initBuffers. monad_simpl. rewrite Hp.
  revert w Hp Hmax.
  induction fuel as [|fuel IH]; intros w Hp Hmax; cbn [initBuffers_loop];
    (destruct (Z.leb_spec 0 (MaxSize (config w))); [| lia]).
  - reflexivity.
  - change (wrap64 (0 * 2)) with 0. apply IH; assumption.
Qed.

Lemma X3_initBuffers_diverges_witness :
  initBuffers 1000 (empty_world (mkPoolConfig 128 0 32768)) = OutOfFuel.
Proof.
  apply (X3_initBuffers_diverges 1000 (empty_world (mkPoolConfig 128 0 32768))).
  - reflexivity.
  - vm_compute. discriminate.
Defined.

End pool_more.

(** ** More on buffers *)

Section buffers_more.
Import Buffer.
Context {rt : Runtime}.

(** X4. [EnsureSpace(n)] keeps the bytes of the buffer, and leaves [n] free
    bytes in the active chunk exactly when the active chunk already had
    them or [n] is at most the capacity of the chunk it acquires: the start
    size when the active chunk is empty, else twice the capacity of the
    chunk recorded in [toPool], capped by the maximum size.  [toPool] is
    the chunk the buffer acquired last: the active chunk, unless an append
    from outside has reallocated [Buf].  The start size is assumed to lie
    between 0 and the maximum size, and the capacity of [toPool] between 0
    and 2^62. *)
Theorem X4_EnsureSpace_guarantee (n : Z) (b : t) (w : World) :
  pool_ok w ->
  0 <= cap (toPool b) < 2 ^ 62 ->
  0 <= StartSize (config w) <= MaxSize (config w) ->
  let l := if len (Buf b) =? 0 then StartSize (config w)
           else Z.min (MaxSize (config w)) (2 * cap (toPool b)) in
  exists b' w',
    EnsureSpace n b w = Ok (b', w')
    /\ Buffer_contents b' = Buffer_contents b
    /\ (n <= cap (Buf b') - len (Buf b')
        <-> n <= cap (Buf b) - len (Buf b) \/ n <= l).
Proof.
  intros Hok Hcap Hstart l.
  assert (Hl0 : 0 <= len (Buf b)) by (unfold len; lia).
  unfold EnsureSpace.
  destruct (Z.ltb_spec (cap (Buf b) - len (Buf b)) n) as [Hshort | Hroom].
  2: { exists b, w. unfold ret. split; [reflexivity |].
       split; [reflexivity |]. tauto. }
  assert (Hreq : 0 <= l).
  { unfold l. destruct (len (Buf b) =? 0); lia. }
  (* the pool when the new chunk is requested *)
  set (w0 := if (0 <? len (Buf b)) && negb (cap (toPool b) =? cap (Buf b))
             then putBuf (toPool b) w else w).
  assert (Hok0 : pool_ok w0).
  { unfold w0. destruct (_ && _); [apply putBuf_pool_ok |]; exact Hok. }
  assert (Hcfg0 : config w0 = config w).
  { unfold w0. destruct (_ && _); [apply putBuf_config | reflexivity]. }
  destruct (getBuf_ok l w0 Hok0 Hreq) as (buf & w' & Hget & Hc & He & _).
  assert (Hrun : ensureSpaceSlow n b w
                 = Ok (mk buf buf (if len (Buf b) =? 0 then bufs b
                                   else bufs b ++ [Buf b]), w')).
  { unfold ensureSpaceSlow. unfold w0 in Hget, Hcfg0.
    destruct (Z.eqb_spec (len (Buf b)) 0) as [E | E].
    - rewrite E in *. change (0 <? 0) with false in *. cbn [andb] in *.
      monad_simpl.
      replace (if MaxSize (config w) <? StartSize (config w)
               then MaxSize (config w) else StartSize (config w))
        with l.
      + rewrite Hget. reflexivity.
      + unfold l. rewrite ?E. change (0 =? 0) with true.
        destruct (Z.ltb_spec (MaxSize (config w)) (StartSize (config w)));
          [lia | reflexivity].
    - destruct (Z.ltb_spec 0 (len (Buf b))); [| lia]. cbn [andb] in *.
      assert (Hl : (if MaxSize (config w) <? wrap64 (cap (toPool b) * 2)
                    then MaxSize (config w) else wrap64 (cap (toPool b) * 2))
                   = l).
      { rewrite wrap64_id by lia. unfold l.
        destruct (Z.eqb_spec (len (Buf b)) 0); [lia |].
        destruct (Z.ltb_spec (MaxSize (config w)) (cap (toPool b) * 2)); lia. }
      destruct (negb (cap (toPool b) =? cap (Buf b))); monad_simpl.
      + rewrite Hcfg0, Hl, Hget. reflexivity.
      + rewrite Hl, Hget. reflexivity. }
  eexists _, _. split; [exact Hrun |]. split.
  - unfold Buffer_contents. cbn [Buf bufs]. rewrite He, app_nil_r.
    destruct (Z.eqb_spec (len (Buf b)) 0) as [E | E].
    + unfold len in E. destruct (elems (Buf b)); [| simpl in E; lia].
      rewrite app_nil_r. reflexivity.
    + rewrite contents_app. unfold contents at 2. cbn [map concat].
      rewrite app_nil_r. reflexivity.
  - cbn [Buf]. unfold len at 1. rewrite He, Hc. cbn [length]. lia.
Qed.

Lemma fold_append_cap (l : list slice) :
  forall bf : slice,
    len bf + blen (contents l) <= cap bf ->
    cap (fold_left (fun bf buf => append bf (elems buf)) l bf) = cap bf.
Proof.
  induction l as [|x l IH]; intros bf Hfit; [reflexivity |].
  cbn [fold_left]. unfold contents in Hfit. cbn [map concat] in Hfit.
  fold (contents l) in Hfit. unfold blen in Hfit. rewrite length_app in Hfit.
  rewrite append_fits by (unfold blen; lia).
  rewrite IH; [reflexivity |].
  unfold len, blen in *. cbn [elems cap]. rewrite length_app. lia.
Qed.

(** X5. [Bytes] and [String] never fail: they return the bytes of the
    buffer, spilled chunks first, in a slice allocated once with exactly
    [Size] bytes of capacity. *)
Theorem X5_Bytes_String (b : t) :
  exists r,
    Bytes b = Ok r
    /\ elems r = Buffer_contents b
    /\ cap r = Size b
    /\ String b = Ok (Buffer_contents b).
Proof.
  assert (Hmake : make (Size b) = Ok (mkSlice [] (Size b))).
  { unfold make. rewrite Size_contents. unfold blen.
    destruct (Z.ltb_spec (Z.of_nat (length (Buffer_contents b))) 0);
      [lia | reflexivity]. }
  assert (Hbytes : exists r, Bytes b = Ok r
                             /\ elems r = Buffer_contents b
                             /\ cap r = Size b).
  { unfold Bytes. rewrite Hmake. eexists. split; [reflexivity |].
    split.
    - rewrite append_elems, fold_append_elems. reflexivity.
    - assert (Hsize : Size b = blen (contents (bufs b)) + len (Buf b)).
      { rewrite Size_contents. unfold Buffer_contents, blen, len.
        rewrite length_app. lia. }
      assert (Hmid : cap (fold_left (fun bf buf => append bf (elems buf))
                            (bufs b) (mkSlice [] (Size b))) = Size b).
      { rewrite fold_append_cap; [reflexivity |].
        unfold len. cbn [elems cap length]. unfold len in Hsize. lia. }
      rewrite append_fits; [exact Hmid |].
      rewrite Hmid. unfold len. rewrite fold_append_elems. cbn [elems app].
      unfold blen, len in *. lia. }
  destruct Hbytes as (r & HB & He & Hc).
  exists r. repeat (split; [assumption |]).
  unfold String. rewrite HB, He. reflexivity.
Qed.

(** Writing a list of chunks to an accepting writer. *)
Lemma WriteTo_spilled_accepting {W : Type} `{!Writer W} (out : W -> list byte)
    (l : list slice) :
  accepting out ->
  forall (n : Z) (snk : W),
    0 <= n -> n + blen (contents l) < 2 ^ 63 ->
    exists snk',
      WriteTo_spilled l n snk = (n + blen (contents l), None, snk')
      /\ net_Buffers_WriteTo l n snk = (n + blen (contents l), None, snk')
      /\ out snk' = out snk ++ contents l.
Proof.
  intros Hacc. induction l as [|x l IH]; intros n snk Hn Hsum.
  - exists snk. cbn. rewrite Z.add_0_r, app_nil_r. auto.
  - unfold contents in *. cbn [map concat] in *.
    unfold blen in *. rewrite length_app in *.
    destruct (Hacc snk (elems x)) as (snk1 & HW & Hout1).
    cbn [WriteTo_spilled net_Buffers_WriteTo]. rewrite HW.
    rewrite wrap64_id by (unfold blen; lia).
    destruct (IH (n + blen (elems x)) snk1) as (snk' & H1 & H2 & Hout);
      [unfold blen; lia | unfold blen; lia |].
    exists snk'.
    replace (n + Z.of_nat (length (elems x) + length (concat (map elems l))))
      with (n + blen (elems x) + Z.of_nat (length (concat (map elems l))))
      by (unfold blen; lia).
    rewrite H1, H2, Hout, Hout1, <- app_assoc. auto.
Qed.


(** X7. [RecyclableReader] turns a buffer into a cursor without copying or
    releasing a chunk: the buffer is left empty, a chunk set with reference
    count 1 holds the spilled chunks followed by the active chunk, the
    cursor stands at position 0 of it, open, and its [Bytes] are the bytes
    the buffer held. *)
Theorem X7_RecyclableReader_handoff (b : t) (w : World) :
  exists p s w' bf w'',
    RecyclableReader b w = Ok (p, zero, w')
    /\ readers w' !! p
       = Some (recyclableReadCloser.mk (Some s) 0 0 0 0 false false)
    /\ recyclables w' !! s = Some (recyclable.mk (bufs b ++ [Buf b]) 1)
    /\ buffers w' = buffers w
    /\ recyclableReadCloser.Bytes (Some p) w' = Ok (bf, w'')
    /\ elems bf = Buffer_contents b.
Proof.
  assert (Hmade : exists p s w',
             RecyclableReader b w = Ok (p, zero, w')
             /\ readers w' !! p
                = Some (recyclableReadCloser.mk (Some s) 0 0 0 0 false false)
             /\ recyclables w' !! s
                = Some (recyclable.mk (bufs b ++ [Buf b]) 1)
             /\ buffers w' = buffers w).
  { unfold RecyclableReader, newRecyclableReadCloser, newRecyclable,
      recyclable.isRecycle_Add, recyclable.load, recyclable.store,
      recyclableReadCloser.store.
    monad_simpl.
    unfold recyclableReadCloser.pool_Get, recyclable.pool_Get.
    destruct (recyclableReadCloserPool w) as [|p ps];
      cbn [recyclablePool set_readers set_recyclableReadCloserPool];
      destruct (recyclablePool w) as [|s ss];
      cbn [recyclables readers buffers set_recyclables set_readers
           set_recyclablePool set_recyclableReadCloserPool];
      rewrite !lookup_insert_eq; cbn [default id recyclable.data
        recyclable.isRecycle];
      eexists _, _, _; (split; [reflexivity |]);
      cbn [recyclables readers buffers set_recyclables set_readers
           set_recyclablePool set_recyclableReadCloserPool];
      rewrite !lookup_insert_eq; auto. }
  destruct Hmade as (p & s & w' & HR & Hp & Hs & Hbuf).
  destruct (Bytes_elems p s _ _ w' Hp eq_refl Hs) as (bf & HB & He).
  eexists p, s, w', bf, _.
  repeat (split; [eassumption |]).
  rewrite He. cbn [recyclable.data]. rewrite contents_app.
  unfold Buffer_contents, contents at 2. cbn [map concat].
  rewrite app_nil_r. reflexivity.
Qed.

End buffers_more.

Lemma X4_EnsureSpace_guarantee_witness :
  exists b' w',
    Buffer.EnsureSpace 200 reallocated_buffer init_world = Ok (b', w')
    /\ Buffer_contents b' = Buffer_contents reallocated_buffer
    /\ (200 <= cap (Buffer.Buf b') - len (Buffer.Buf b')
        <-> 200 <= 0 \/ 200 <= 256).
Proof.
  apply (X4_EnsureSpace_guarantee 200 reallocated_buffer init_world).
  - exact init_world_pool_ok.
  - vm_compute. split; [discriminate | reflexivity].
  - vm_compute. split; discriminate.
Defined.

Lemma store_all_accepting : accepting (Writer0 := store_all) (fun w => w).
Proof. intros w p. exists (w ++ p). split; reflexivity. Qed.


(** ** Reading through a cursor *)

Section cursor_reading.
Import recyclableReadCloser cursor_spec.

Lemma blen_take (z : Z) (l : list byte) :
  0 <= z -> blen (take (Z.to_nat z) l) = Z.min z (blen l).
Proof. intros Hz. unfold blen. rewrite length_take. lia. Qed.

Lemma blen_drop (z : Z) (l : list byte) :
  0 <= z <= blen l -> blen (drop (Z.to_nat z) l) = blen l - z.
Proof. intros Hz. unfold blen in *. rewrite length_drop. lia. Qed.

Lemma blen_app (l1 l2 : list byte) : blen (l1 ++ l2) = blen l1 + blen l2.
Proof. unfold blen. rewrite length_app. lia. Qed.

Lemma blen_nonneg (l : list byte) : 0 <= blen l.
Proof. unfold blen. lia. Qed.

Lemma put_reader_twice p c1 c2 w :
  put_reader p c2 (put_reader p c1 w) = put_reader p c2 w.
Proof.
  unfold put_reader, set_readers. cbn [config buffers recyclablePool
    recyclableReadCloserPool recyclables readers].
  rewrite insert_insert_eq. reflexivity.
Qed.

Lemma readers_put_reader p c w : readers (put_reader p c w) !! p = Some c.
Proof. apply lookup_insert_eq. Qed.

(** The chunk list around its chunk number [i]. *)
Lemma contents_split (data : list slice) (i : nat) (buf : slice) :
  data !! i = Some buf ->
  contents data
  = contents (take i data) ++ elems buf ++ contents (drop (S i) data).
Proof.
  intros Hi. rewrite <- (take_drop_middle data i buf Hi) at 1.
  rewrite contents_app. unfold contents at 2. cbn [map concat].
  reflexivity.
Qed.

(** What is left to read at a position inside chunk [i]. *)
Lemma unread_at (data : list slice) (c : t) (buf : slice) :
  pos_ok data c ->
  data !! Z.to_nat (index c) = Some buf ->
  unread data c
  = drop (Z.to_nat (offset c)) (elems buf)
    ++ contents (drop (S (Z.to_nat (index c))) data).
Proof.
  intros (Hi & Ho & Hin & _ & Hol & _) Hbuf.
  specialize (Hin buf Hbuf).
  unfold unread. rewrite Hol, (contents_split data _ buf Hbuf) at 1.
  set (A := contents (take (Z.to_nat (index c)) data)).
  replace (Z.to_nat (blen A + offset c))
    with (length A + Z.to_nat (offset c))%nat by (unfold blen; lia).
  rewrite drop_app_add, drop_app_le; [reflexivity |].
  unfold len in Hin. lia.
Qed.

Lemma unread_at_end (data : list slice) (c : t) :
  pos_ok data c ->
  index c = Z.of_nat (length data) ->
  unread data c = [].
Proof.
  intros (Hi & Ho & _ & Hend & Hol & _) Hidx.
  unfold unread. rewrite Hol, (Hend Hidx), Hidx, Nat2Z.id, firstn_all.
  rewrite Z.add_0_r. apply drop_ge. unfold blen. lia.
Qed.

Lemma splice_twice (dst src later : list byte) (n k : nat) :
  (n <= length dst)%nat ->
  take (n + length src)
    (take n dst ++ src ++ drop (length src) (drop n dst))
  ++ take k later
  ++ drop (n + length src + k)
       (take n dst ++ src ++ drop (length src) (drop n dst))
  = take n dst ++ take (length src + k) (src ++ later)
    ++ drop (n + length src + k) dst.
Proof.
  intros Hn.
  assert (Hpre : length (take n dst ++ src) = (n + length src)%nat)
    by (rewrite length_app, length_take; lia).
  rewrite (app_assoc (take n dst) src).
  rewrite <- Hpre at 1. rewrite take_app_length.
  rewrite <- Hpre at 1. rewrite drop_app_add, !drop_drop.
  rewrite take_app_add, <- !app_assoc.
  do 3 f_equal. f_equal. lia.
Qed.

Lemma read_result_eq (n n' : Z) (e : option error) (d d' : list byte)
    (w : World) :
  n = n' -> d = d' -> Ok (n, e, d, w) = Ok (n', e, d', w).
Proof. intros -> ->. reflexivity. Qed.

(** The loop of [Read] from a consistent position: it fills the
    destination from [n] on with the next unread bytes, as many as fit or
    as are left, and moves the cursor past them. *)
Lemma Read_loop_spec (fuel : nat) :
  forall (p : loc) (data : list slice) (dst : list byte) (n : Z) (w : World)
         (c : t),
    readers w !! p = Some c ->
    isClose c = false ->
    pos_ok data c ->
    0 <= n <= blen dst ->
    (length data - Z.to_nat (index c) <= fuel)%nat ->
    exists c',
      Read_loop fuel p data (Z.of_nat (length data)) dst n w
      = Ok (n + Z.min (blen dst - n) (blen (unread data c)), None,
            take (Z.to_nat n) dst
            ++ take (Z.to_nat (Z.min (blen dst - n) (blen (unread data c))))
                 (unread data c)
            ++ drop (Z.to_nat
                       (n + Z.min (blen dst - n) (blen (unread data c)))) dst,
            put_reader p c' w)
      /\ pos_ok data c'
      /\ offsetLen c'
         = offsetLen c + Z.min (blen dst - n) (blen (unread data c))
      /\ bufs c' = bufs c /\ size c' = size c
      /\ isClose c' = false /\ isRecycle c' = isRecycle c.
Proof.
  induction fuel as [|fuel IH]; intros p data dst n w c Hp Hopen Hpos Hn Hfuel.
  all: pose proof Hpos as (Hi & Ho & Hin & Hend & Hol & Hsz).
  all: pose proof (blen_nonneg (unread data c)) as Hun.
  all: destruct (Z.ltb_spec (index c) (Z.of_nat (length data))) as [Hlt | Hge].
  all: try (exfalso; lia).
  (* at the end of the chunk list *)
  1, 3: assert (Hidx : index c = Z.of_nat (length data)) by lia.
  1, 2: rewrite (unread_at_end data c Hpos Hidx).
  1, 2: change (blen []) with 0; rewrite Z.min_r by lia.
  1, 2: exists c; rewrite Z.add_0_r, (put_reader_same p c w Hp).
  1, 2: cbn [Read_loop]; unfold load; monad_simpl; rewrite Hp; cbn [default id].
  1, 2: destruct (Z.ltb_spec (index c) (Z.of_nat (length data))); [lia |].
  1, 2: change (Z.to_nat 0) with 0%nat; cbn [take app]; rewrite take_drop.
  1, 2: repeat split; auto; lia.
  (* inside chunk number [index c] *)
  destruct (lookup_lt_is_Some_2 data (Z.to_nat (index c)) ltac:(lia))
    as [buf Hbuf].
  pose proof (Hin buf Hbuf) as Hoff.
  pose proof (unread_at data c buf Hpos Hbuf) as Hunread.
  set (src := drop (Z.to_nat (offset c)) (elems buf)) in *.
  set (later := contents (drop (S (Z.to_nat (index c))) data)) in *.
  set (room := drop (Z.to_nat n) dst).
  assert (Hsrc : blen src = len buf - offset c).
  { unfold src. rewrite blen_drop; [reflexivity |]. unfold len in Hoff.
    unfold blen. lia. }
  assert (Hroom : blen room = blen dst - n)
    by (unfold room; apply blen_drop; lia).
  set (moved := copy (blen room) src).
  assert (Hx : blen moved = Z.min (blen dst - n) (blen src)).
  { unfold moved, copy. rewrite blen_take, Hroom; lia. }
  pose proof (blen_nonneg src) as Hsrc0.
  pose proof (blen_nonneg later) as Hlater0.
  assert (Hun_len : blen (unread data c) = blen src + blen later)
    by (rewrite Hunread; apply blen_app).
  cbn [Read_loop]. unfold load at 1. monad_simpl. rewrite Hp. cbn [default id].
  destruct (Z.ltb_spec (index c) (Z.of_nat (length data))); [| lia].
  rewrite Hopen. unfold at_index.
  destruct (Z.ltb_spec (index c) 0); [lia |]. rewrite Hbuf.
  unfold slice_from.
  destruct (Z.leb_spec 0 (offset c)); [| lia].
  destruct (Z.leb_spec (offset c) (blen (elems buf)));
    [| unfold len, blen in *; lia].
  destruct (Z.leb_spec 0 n); [| lia].
  destruct (Z.leb_spec n (blen dst)); [| lia].
  cbn [andb]. fold src room moved. unfold store. monad_simpl.
  rewrite Hx.
  destruct (Z.eqb_spec (offset c + Z.min (blen dst - n) (blen src)) (len buf))
    as [Hdrained | Hpartial].
  - (* the chunk is drained *)
    assert (Hfit : blen src <= blen dst - n) by lia.
    rewrite Z.min_r in * by lia.
    assert (Hmoved : moved = src).
    { unfold moved, copy. apply take_ge. unfold blen in *. lia. }
    rewrite Hmoved.
    set (c1 := set_offsetLen (offsetLen c + blen src)
                 (set_index (index c + 1) (set_offset 0 c))).
    set (dst1 := take (Z.to_nat n) dst ++ src ++ drop (Z.to_nat (blen src)) room).
    assert (Hdst1 : blen dst1 = blen dst).
    { unfold dst1. rewrite !blen_app, blen_take by lia.
      unfold room. rewrite drop_drop, <- Z2Nat.inj_add by lia.
      rewrite blen_drop by lia. lia. }
    assert (Hpos1 : pos_ok data c1).
    { unfold pos_ok, c1. cbn [index offset offsetLen size set_offsetLen
        set_index set_offset].
      split; [lia |]. split; [lia |].
      split; [intros b' _; unfold len; lia |].
      split; [reflexivity |].
      split; [| exact Hsz].
      replace (Z.to_nat (index c + 1)) with (S (Z.to_nat (index c))) by lia.
      rewrite (take_S_r data _ buf Hbuf), contents_app.
      unfold contents at 2. cbn [map concat]. rewrite app_nil_r, blen_app.
      rewrite Hol. unfold len in *. unfold blen in *. lia. }
    assert (Hun1 : unread data c1 = later).
    { destruct (Z.ltb_spec (index c1) (Z.of_nat (length data))) as [Hin1 | Hout1].
      - destruct (lookup_lt_is_Some_2 data (Z.to_nat (index c1)) ltac:(lia))
          as [buf1 Hbuf1].
        rewrite (unread_at data c1 buf1 Hpos1 Hbuf1).
        assert (Hnext : data !! S (Z.to_nat (index c)) = Some buf1).
        { rewrite <- Hbuf1. f_equal.
          cbn [c1 index set_offsetLen set_index set_offset]. lia. }
        unfold later. rewrite (drop_S data buf1 _ Hnext).
        cbn [c1 index offset set_offsetLen set_index set_offset].
        replace (Z.to_nat (index c + 1)) with (S (Z.to_nat (index c))) by lia.
        change (Z.to_nat 0) with 0%nat. cbn [drop].
        unfold contents. reflexivity.
      - rewrite (unread_at_end data c1 Hpos1)
          by (destruct Hpos1 as (? & _); lia).
        unfold later. cbn [c1 index set_offsetLen set_index set_offset] in Hout1.
        rewrite drop_ge by lia. reflexivity. }
    destruct (Z.eqb_spec (n + blen src) (blen dst1)) as [Hfull | Hmore].
    + (* the destination is full as well *)
      change (set_readers _ w) with (put_reader p c1 w).
      exists c1. unfold ret.
      assert (Hk : Z.min (blen dst - n) (blen (unread data c)) = blen src)
        by lia.
      rewrite Hk. split.
      * apply read_result_eq; [reflexivity |].
        unfold dst1, room. rewrite Hunread.
        rewrite take_app_length' by (unfold blen; lia).
        rewrite drop_drop, <- Z2Nat.inj_add by lia. reflexivity.
      * split; [exact Hpos1 |]. repeat split; auto.
    + (* on to the next chunk *)
      change (set_readers _ w) with (put_reader p c1 w).
      destruct (IH p data dst1 (n + blen src) (put_reader p c1 w) c1)
        as (c' & Hrun & Hpos' & Hol' & Hb' & Hs' & Hc' & Hr');
        [apply readers_put_reader | exact Hopen | exact Hpos1 | lia | |].
      { cbn [c1 index set_offsetLen set_index set_offset]. lia. }
      rewrite Hun1, Hdst1 in Hrun, Hol'.
      exists c'. rewrite Hrun, put_reader_twice.
      assert (Hk : Z.min (blen dst - n) (blen (unread data c))
                   = blen src + Z.min (blen dst - (n + blen src)) (blen later))
        by lia.
      rewrite Hk. set (k' := Z.min (blen dst - (n + blen src)) (blen later)).
      assert (Hk' : 0 <= k') by (unfold k'; lia).
      split.
      * apply read_result_eq; [lia |].
        unfold dst1, room. rewrite Hunread.
        replace (Z.to_nat (n + blen src))
          with (Z.to_nat n + length src)%nat by (unfold blen; lia).
        replace (Z.to_nat (n + blen src + k'))
          with (Z.to_nat n + length src + Z.to_nat k')%nat
          by (unfold blen; lia).
        replace (Z.to_nat (n + (blen src + k')))
          with (Z.to_nat n + length src + Z.to_nat k')%nat
          by (unfold blen; lia).
        replace (Z.to_nat (blen src + k'))
          with (length src + Z.to_nat k')%nat by (unfold blen; lia).
        replace (Z.to_nat (blen src)) with (length src) by (unfold blen; lia).
        apply splice_twice. unfold blen in *. lia.
      * split; [exact Hpos' |].
        split; [rewrite Hol'; cbn [c1 offsetLen set_offsetLen]; lia |].
        repeat split; auto.
  - (* the destination is full before the chunk is drained *)
    assert (Hshort : blen dst - n < blen src) by lia.
    rewrite Z.min_l in * by lia.
    set (c1 := set_offsetLen (offsetLen c + (blen dst - n))
                 (set_offset (offset c + (blen dst - n)) c)).
    set (dst1 := take (Z.to_nat n) dst ++ moved
                 ++ drop (Z.to_nat (blen dst - n)) room).
    assert (Hdst1 : blen dst1 = blen dst).
    { unfold dst1. rewrite !blen_app, blen_take, Hx by lia.
      unfold room. rewrite drop_drop, <- Z2Nat.inj_add by lia.
      rewrite blen_drop by lia. lia. }
    destruct (Z.eqb_spec (n + (blen dst - n)) (blen dst1)) as [_ | Hne];
      [| lia].
    change (set_readers _ w) with (put_reader p c1 w).
    exists c1. unfold ret.
    rewrite Z.min_l by lia.
    split.
    + apply read_result_eq; [lia |].
      unfold dst1, moved, copy. rewrite Hunread, Hroom. unfold room.
      rewrite take_app_le by (unfold blen in *; lia).
      do 2 f_equal. rewrite drop_drop. f_equal. lia.
    + split.
      * unfold pos_ok, c1. cbn [index offset offsetLen size set_offsetLen
          set_index set_offset].
        split; [lia |]. split; [lia |].
        split; [intros b' Hb'; rewrite Hbuf in Hb'; injection Hb' as <-; lia |].
        split; [lia |]. split; [lia | exact Hsz].
      * repeat split; auto.
Qed.

Lemma pos_ok_offsetLen (data : list slice) (c : t) :
  pos_ok data c -> 0 <= offsetLen c <= blen (contents data).
Proof.
  intros Hpos. pose proof Hpos as (Hi & Ho & Hin & Hend & Hol & _).
  pose proof (blen_nonneg (contents (take (Z.to_nat (index c)) data))).
  split; [lia |].
  destruct (Z.ltb_spec (index c) (Z.of_nat (length data))) as [Hlt | Hge].
  - destruct (lookup_lt_is_Some_2 data (Z.to_nat (index c)) ltac:(lia))
      as [buf Hbuf].
    rewrite (contents_split data _ buf Hbuf), !blen_app.
    pose proof (Hin buf Hbuf).
    pose proof (blen_nonneg (contents (drop (S (Z.to_nat (index c))) data))).
    unfold len in *. unfold blen in *. lia.
  - rewrite Hol, Hend by lia. rewrite take_ge by lia. lia.
Qed.

Lemma unread_len (data : list slice) (c : t) :
  pos_ok data c -> blen (unread data c) = blen (contents data) - offsetLen c.
Proof.
  intros Hpos. unfold unread. apply blen_drop, pos_ok_offsetLen, Hpos.
Qed.

Lemma pos_ok_Len_value (data : list slice) (c : t) (w : World) :
  pos_ok data c -> data_of c w = data ->
  Len_value c w = blen (contents data).
Proof.
  intros (_ & _ & _ & _ & _ & Hsz) Hdata. unfold Len_value.
  rewrite Hdata, total_len_contents.
  destruct (Z.ltb_spec 0 (size c)); lia.
Qed.

Lemma pos_ok_Len_cached (data : list slice) (c : t) (w : World) :
  pos_ok data c -> data_of c w = data -> pos_ok data (Len_cached c w).
Proof.
  intros Hpos Hdata. pose proof Hpos as (Hi & Ho & Hin & Hend & Hol & Hsz).
  destruct (Len_cached_fields c w) as (_ & Eo & Ei & El & _ & _).
  unfold pos_ok. rewrite Eo, Ei, El.
  repeat (split; [assumption || lia |]).
  unfold Len_cached. destruct (0 <? size c); [exact Hsz |].
  destruct (bufs c); [| exact Hsz].
  right. cbn [size set_size]. rewrite Hdata. apply total_len_contents.
Qed.

(** [Read] through an open cursor at a consistent position. *)
Lemma Read_eq (fuel : nat) (p s : loc) (c : t) (d : recyclable.t)
    (dst : list byte) (w : World) :
  readers w !! p = Some c ->
  bufs c = Some s ->
  recyclables w !! s = Some d ->
  isClose c = false ->
  pos_ok (recyclable.data d) c ->
  (length (recyclable.data d) <= fuel)%nat ->
  let rest := unread (recyclable.data d) c in
  let k := Z.min (blen dst) (blen rest) in
  exists c',
    Read fuel (Some p) dst w
    = Ok (k, (if blen rest <=? blen dst then Some io_EOF else None),
          take (Z.to_nat k) rest ++ drop (Z.to_nat k) dst,
          put_reader p c' w)
    /\ pos_ok (recyclable.data d) c'
    /\ offsetLen c' = offsetLen c + k
    /\ bufs c' = bufs c /\ isClose c' = false /\ isRecycle c' = isRecycle c.
Proof.
  intros Hp Hb Hs Hopen Hpos Hfuel rest k.
  set (data := recyclable.data d) in *.
  assert (Hdata : data_of c w = data)
    by (unfold data_of; rewrite Hb, Hs; reflexivity).
  pose proof (pos_ok_offsetLen data c Hpos) as Hrange.
  pose proof (unread_len data c Hpos) as Hrest. fold rest in Hrest.
  pose proof (blen_nonneg dst) as Hdst.
  destruct (Len_cached_fields c w) as (Eb & Eo & Ei & El & Ec & Er).
  set (c1 := Len_cached c w) in *. set (w1 := put_reader p c1 w).
  assert (Hpos1 : pos_ok data c1) by (apply pos_ok_Len_cached; assumption).
  unfold Read. monad_simpl. unfold load at 1. monad_simpl.
  rewrite Hp. cbn [default id]. rewrite (Len_eq p c w Hp).
  rewrite (pos_ok_Len_value data c w Hpos Hdata). fold c1 w1.
  destruct (Z.leb_spec (blen (contents data)) (offsetLen c)) as [Hdone | Hleft].
  - (* nothing is left *)
    exists c1. unfold k. rewrite Z.min_r by lia.
    replace (blen rest) with 0 by lia.
    destruct (Z.leb_spec 0 (blen dst)); [| lia].
    split; [reflexivity |]. split; [exact Hpos1 |]. split; [lia |].
    repeat split; congruence.
  - assert (Hp1 : readers w1 !! p = Some c1) by apply readers_put_reader.
    unfold load at 1. monad_simpl. rewrite Hp1. cbn [default id].
    rewrite Ec, Hopen, Eb, Hb.
    unfold recyclable.load. monad_simpl.
    change (recyclables w1) with (recyclables w). rewrite Hs. cbn [default id].
    fold data.
    assert (Hsize1 : size c1 = blen (contents data)).
    { destruct Hpos1 as (_ & _ & _ & _ & _ & [Hz | Hz]); [| exact Hz].
      unfold c1, Len_cached in *. destruct (Z.ltb_spec 0 (size c)); [lia |].
      rewrite Hb in *. cbn [size set_size] in *.
      rewrite Hdata, total_len_contents in Hz. lia. }
    assert (Hsame : Len_cached c1 w1 = c1).
    { unfold Len_cached at 1.
      destruct (Z.ltb_spec 0 (size c1)); [reflexivity | lia]. }
    rewrite (Len_eq p c1 w1 Hp1), Hsame, (put_reader_same p c1 w1 Hp1).
    assert (Hval1 : Len_value c1 w1 = blen (contents data)).
    { unfold Len_value. destruct (Z.ltb_spec 0 (size c1)); [exact Hsize1 | lia]. }
    rewrite Hval1.
    destruct (Read_loop_spec fuel p data dst 0 w1 c1 Hp1)
      as (c' & Hrun & Hpos' & Hol' & Hb' & Hs' & Hc' & Hr');
      [congruence | exact Hpos1 | lia | lia |].
    assert (Hun1 : unread data c1 = rest)
      by (unfold rest, unread; rewrite El; reflexivity).
    rewrite Hun1, Z.sub_0_r in Hrun, Hol'. rewrite Z.add_0_l in Hrun.
    fold k in Hrun, Hol'.
    rewrite Hrun. cbn [fst snd]. unfold load. monad_simpl.
    rewrite readers_put_reader. cbn [default id]. rewrite Hol', El.
    unfold w1. rewrite put_reader_twice.
    exists c'.
    split; [| split; [exact Hpos' |]; split; [lia |]; repeat split; congruence].
    change (Z.to_nat 0) with 0%nat. cbn [take app].
    destruct (Z.leb_spec (blen (contents data)) (offsetLen c + k)) as [Hall | Hsome].
    + destruct (Z.leb_spec (blen rest) (blen dst)); [| lia].
      destruct (Z.eqb_spec (blen dst) 0); [lia | reflexivity].
    + destruct (Z.leb_spec (blen rest) (blen dst)); [lia | reflexivity].
Qed.

(** X8. [Read] through an open cursor at a consistent position delivers
    the unread bytes in order: it returns [n], the smaller of the
    destination's length and the number of unread bytes, the first [n]
    bytes of the destination are the next [n] unread bytes and the others
    are untouched, the cursor moves on by [n] bytes, and the error is
    [io.EOF] exactly when no unread byte is left behind.  Of the package
    state only the cursor's struct changes. *)
Theorem X8_Read_next_bytes (fuel : nat) (p s : loc) (c : t)
    (d : recyclable.t) (dst : list byte) (w : World) :
  readers w !! p = Some c ->
  bufs c = Some s ->
  recyclables w !! s = Some d ->
  isClose c = false ->
  pos_ok (recyclable.data d) c ->
  (length (recyclable.data d) <= fuel)%nat ->
  exists n err dst' w',
    Read fuel (Some p) dst w = Ok (n, err, dst', w')
    /\ n = Z.min (blen dst) (blen (unread (recyclable.data d) c))
    /\ take (Z.to_nat n) dst' = take (Z.to_nat n) (unread (recyclable.data d) c)
    /\ drop (Z.to_nat n) dst' = drop (Z.to_nat n) dst
    /\ (err = Some io_EOF <-> unread (recyclable.data d) (reader_at p w') = [])
    /\ (err = None \/ err = Some io_EOF)
    /\ unread (recyclable.data d) (reader_at p w')
       = drop (Z.to_nat n) (unread (recyclable.data d) c)
    /\ pos_ok (recyclable.data d) (reader_at p w')
    /\ w' = put_reader p (reader_at p w') w.
Proof.
  intros Hp Hb Hs Hopen Hpos Hfuel.
  destruct (Read_eq fuel p s c d dst w Hp Hb Hs Hopen Hpos Hfuel)
    as (c' & Hrun & Hpos' & Hol' & _).
  set (data := recyclable.data d) in *. set (rest := unread data c) in *.
  set (k := Z.min (blen dst) (blen rest)) in *.
  pose proof (blen_nonneg dst) as Hdst. pose proof (blen_nonneg rest) as Hrest.
  assert (Hat : reader_at p (put_reader p c' w) = c')
    by (unfold reader_at; rewrite readers_put_reader; reflexivity).
  assert (Hun : unread data c' = drop (Z.to_nat k) rest).
  { unfold rest, unread. rewrite Hol', drop_drop. f_equal.
    pose proof (pos_ok_offsetLen data c Hpos). lia. }
  assert (Hlen : length (take (Z.to_nat k) rest) = Z.to_nat k)
    by (rewrite length_take; unfold blen in *; lia).
  eexists k, _, _, _. split; [exact Hrun |]. rewrite Hat, Hun.
  split; [reflexivity |].
  split; [rewrite <- Hlen at 1; rewrite take_app_length; reflexivity |].
  split; [rewrite <- Hlen at 1; rewrite drop_app_length; reflexivity |].
  split.
  { destruct (Z.leb_spec (blen rest) (blen dst)) as [Hle | Hgt]; split.
    - intros _. apply drop_ge. unfold blen in *. lia.
    - reflexivity.
    - discriminate.
    - intros Hnil. exfalso.
      assert (blen (drop (Z.to_nat k) rest) = blen rest - k)
        by (apply blen_drop; lia).
      rewrite Hnil in *. change (blen []) with 0 in *. lia. }
  split; [destruct (blen rest <=? blen dst); auto |].
  split; [reflexivity |]. split; [exact Hpos' | reflexivity].
Qed.

Lemma Reset_eq (p : loc) (c : t) (w : World) :
  readers w !! p = Some c ->
  Reset (Some p) w
  = Ok (tt, put_reader p (set_offsetLen 0 (set_index 0 (set_offset 0 c))) w).
Proof.
  intros Hp. unfold Reset, load, store. monad_simpl. rewrite Hp. reflexivity.
Qed.

Lemma pos_ok_start (data : list slice) (c : t) :
  size c = 0 \/ size c = blen (contents data) ->
  pos_ok data (set_offsetLen 0 (set_index 0 (set_offset 0 c))).
Proof.
  intros Hsz. unfold pos_ok.
  cbn [index offset offsetLen size set_offsetLen set_index set_offset].
  split; [lia |]. split; [lia |].
  split; [intros buf _; unfold len; lia |].
  split; [reflexivity |]. split; [reflexivity | exact Hsz].
Qed.

(** X9. [Reset] rewinds a cursor, wherever it stands: the next [Read] into
    a destination as long as the content fills it with the whole content of
    the chunk set and reports [io.EOF], and nothing is left unread. *)
Theorem X9_Reset_rereads (fuel : nat) (p s : loc) (c : t) (d : recyclable.t)
    (dst : list byte) (w : World) :
  readers w !! p = Some c ->
  bufs c = Some s ->
  recyclables w !! s = Some d ->
  isClose c = false ->
  size c = 0 \/ size c = blen (contents (recyclable.data d)) ->
  blen dst = blen (contents (recyclable.data d)) ->
  (length (recyclable.data d) <= fuel)%nat ->
  exists w1 w2,
    Reset (Some p) w = Ok (tt, w1)
    /\ Read fuel (Some p) dst w1
       = Ok (blen dst, Some io_EOF, contents (recyclable.data d), w2)
    /\ unread (recyclable.data d) (reader_at p w2) = [].
Proof.
  intros Hp Hb Hs Hopen Hsz Hdst Hfuel.
  set (data := recyclable.data d) in *.
  set (c0 := set_offsetLen 0 (set_index 0 (set_offset 0 c))).
  set (w1 := put_reader p c0 w).
  assert (Hrest : unread data c0 = contents data) by reflexivity.
  destruct (Read_eq fuel p s c0 d dst w1) as (c' & Hrun & Hpos' & Hol' & _).
  - apply readers_put_reader.
  - exact Hb.
  - exact Hs.
  - exact Hopen.
  - apply pos_ok_start, Hsz.
  - exact Hfuel.
  - fold data in Hrun, Hpos', Hol'. rewrite Hrest in Hrun, Hol'.
    rewrite <- Hdst, Z.min_id, Z.leb_refl in Hrun.
    rewrite <- Hdst, Z.min_id in Hol'.
    exists w1, (put_reader p c' w1).
    split; [apply Reset_eq, Hp |]. split.
    + rewrite Hrun. apply read_result_eq; [reflexivity |].
      rewrite take_ge, drop_ge, app_nil_r by (unfold blen in *; lia).
      reflexivity.
    + unfold reader_at. rewrite readers_put_reader. cbn [default id].
      unfold unread. apply drop_ge. rewrite Hol'.
      cbn [c0 offsetLen set_offsetLen]. unfold blen in *. lia.
Qed.

(** Moving on to the next chunk keeps the position consistent. *)
Lemma pos_ok_next (data : list slice) (c : t) (buf : slice) :
  pos_ok data c ->
  data !! Z.to_nat (index c) = Some buf ->
  let c1 := set_offsetLen (offsetLen c + (len buf - offset c))
              (set_index (index c + 1) (set_offset 0 c)) in
  pos_ok data c1
  /\ unread data c1 = contents (drop (S (Z.to_nat (index c))) data).
Proof.
  intros Hpos Hbuf c1. pose proof Hpos as (Hi & Ho & Hin & Hend & Hol & Hsz).
  pose proof (lookup_lt_Some _ _ _ Hbuf) as Hlt.
  pose proof (Hin buf Hbuf) as Hoff.
  assert (Hpos1 : pos_ok data c1).
  { unfold pos_ok, c1.
    cbn [index offset offsetLen size set_offsetLen set_index set_offset].
    split; [lia |]. split; [lia |].
    split; [intros b' _; unfold len; lia |].
    split; [reflexivity |].
    split; [| exact Hsz].
    replace (Z.to_nat (index c + 1)) with (S (Z.to_nat (index c))) by lia.
    rewrite (take_S_r data _ buf Hbuf), contents_app.
    unfold contents at 2. cbn [map concat]. rewrite app_nil_r, blen_app.
    rewrite Hol. unfold len, blen. lia. }
  split; [exact Hpos1 |].
  assert (Hidx : Z.to_nat (index c1) = S (Z.to_nat (index c)))
    by (cbn [c1 index set_offsetLen set_index set_offset]; lia).
  destruct (data !! S (Z.to_nat (index c))) as [buf1|] eqn:Hnext.
  - rewrite (unread_at data c1 buf1 Hpos1) by (rewrite Hidx; exact Hnext).
    rewrite (drop_S data buf1 _ Hnext), Hidx. reflexivity.
  - apply lookup_ge_None in Hnext.
    rewrite (unread_at_end data c1 Hpos1)
      by (cbn [c1 index set_offsetLen set_index set_offset]; lia).
    rewrite drop_ge by lia. reflexivity.
Qed.

End cursor_reading.

(** ** Writing a cursor's content to a writer *)

Section cursor_writing.
Import recyclableReadCloser cursor_spec.
Context {W : Type} {wr : Writer W} (out : W -> list byte).
Hypothesis Hacc : accepting out.

(** The loop of [WriteTo] with a writer that accepts everything. *)
Lemma WriteTo_loop_spec (fuel : nat) :
  forall (p : loc) (data : list slice) (n : Z) (snk : W) (w : World) (c : t),
    readers w !! p = Some c ->
    isClose c = false ->
    pos_ok data c ->
    0 <= n -> n + blen (unread data c) < 2 ^ 63 ->
    blen (contents data) < 2 ^ 63 ->
    (length data - Z.to_nat (index c) <= fuel)%nat ->
    exists c' snk',
      WriteTo_loop fuel p data (Z.of_nat (length data)) n snk w
      = Ok (n + blen (unread data c), None, snk', put_reader p c' w)
      /\ out snk' = out snk ++ unread data c
      /\ pos_ok data c'
      /\ offsetLen c' = blen (contents data)
      /\ bufs c' = bufs c /\ size c' = size c
      /\ isClose c' = false /\ isRecycle c' = isRecycle c.
Proof.
  induction fuel as [|fuel IH];
    intros p data n snk w c Hp Hopen Hpos Hn Hsum Htotal Hfuel.
  all: pose proof Hpos as (Hi & Ho & Hin & Hend & Hol & Hsz).
  all: destruct (Z.ltb_spec (index c) (Z.of_nat (length data))) as [Hlt | Hge].
  all: try (exfalso; lia).
  1, 3: assert (Hidx : index c = Z.of_nat (length data)) by lia.
  1, 2: rewrite (unread_at_end data c Hpos Hidx).
  1, 2: exists c, snk; rewrite Z.add_0_r, app_nil_r, (put_reader_same p c w Hp).
  1, 2: cbn [WriteTo_loop]; unfold load; monad_simpl; rewrite Hp;
    cbn [default id].
  1, 2: destruct (Z.ltb_spec (index c) (Z.of_nat (length data))); [lia |].
  1, 2: split; [reflexivity |]; split; [reflexivity |]; split; [exact Hpos |].
  1, 2: split; [rewrite Hol, Hend, Hidx by lia; rewrite Nat2Z.id, firstn_all;
                lia |].
  1, 2: repeat split; auto.
  destruct (lookup_lt_is_Some_2 data (Z.to_nat (index c)) ltac:(lia))
    as [buf Hbuf].
  pose proof (Hin buf Hbuf) as Hoff.
  pose proof (unread_at data c buf Hpos Hbuf) as Hunread.
  destruct (pos_ok_next data c buf Hpos Hbuf) as (Hpos1 & Hun1).
  pose proof (pos_ok_offsetLen data _ Hpos1) as Hrange1.
  set (src := drop (Z.to_nat (offset c)) (elems buf)) in *.
  set (later := contents (drop (S (Z.to_nat (index c))) data)) in *.
  assert (Hsrc : blen src = len buf - offset c).
  { unfold src. rewrite blen_drop; [reflexivity |]. unfold len in Hoff.
    unfold blen. lia. }
  pose proof (blen_nonneg src) as Hsrc0.
  pose proof (blen_nonneg later) as Hlater0.
  assert (Hun_len : blen (unread data c) = blen src + blen later)
    by (rewrite Hunread; apply blen_app).
  assert (Hbuf_len : len buf <= blen (contents data)).
  { rewrite (contents_split data _ buf Hbuf), !blen_app.
    pose proof (blen_nonneg (contents (take (Z.to_nat (index c)) data))).
    unfold len, blen in *. lia. }
  assert (Hbuf0 : 0 <= len buf) by (unfold len; lia).
  assert (Hw1 : wrap64 (n + blen src) = n + blen src)
    by (apply wrap64_id; lia).
  assert (Hw2 : wrap64 (offset c + blen src) = len buf)
    by (rewrite wrap64_id; lia).
  assert (Hw3 : wrap64 (offsetLen c + blen src)
                = offsetLen c + (len buf - offset c)).
  { cbn [offsetLen set_offsetLen] in Hrange1. rewrite wrap64_id; lia. }
  destruct (Hacc snk src) as (snk1 & HW & Hout1).
  cbn [WriteTo_loop]. unfold load at 1. monad_simpl. rewrite Hp.
  cbn [default id].
  destruct (Z.ltb_spec (index c) (Z.of_nat (length data))); [| lia].
  rewrite Hopen. unfold at_index.
  destruct (Z.ltb_spec (index c) 0); [lia |]. rewrite Hbuf.
  unfold slice_from.
  destruct (Z.leb_spec 0 (offset c)); [| lia].
  destruct (Z.leb_spec (offset c) (blen (elems buf)));
    [| unfold len, blen in *; lia].
  cbn [andb]. fold src. rewrite HW. unfold store. monad_simpl.
  rewrite Hw1, Hw2, Z.eqb_refl.
  cbn [offsetLen set_index set_offset]. rewrite Hw3, Hsrc.
  set (c1 := set_offsetLen (offsetLen c + (len buf - offset c))
               (set_index (index c + 1) (set_offset 0 c))) in *.
  change (set_readers _ w) with (put_reader p c1 w).
  destruct (IH p data (n + (len buf - offset c)) snk1 (put_reader p c1 w) c1)
    as (c' & snk' & Hrun & Hout & Hpos' & Hol' & Hb' & Hs' & Hc' & Hr');
    [apply readers_put_reader | exact Hopen | exact Hpos1 | lia
    | rewrite Hun1; lia | exact Htotal
    | cbn [c1 index set_offsetLen set_index set_offset]; lia |].
  exists c', snk'. rewrite Hrun, put_reader_twice, Hun1, Hun_len, Hsrc.
  split; [rewrite Z.add_assoc; reflexivity |].
  split; [rewrite Hout, Hun1, Hout1, Hunread, app_assoc; reflexivity |].
  split; [exact Hpos' |]. split; [exact Hol' |]. repeat split; auto.
Qed.

(** X10. [WriteTo] of an open cursor, with a writer that accepts
    everything, hands the writer exactly the unread bytes, in order, and
    reports their number and no error; afterwards nothing is left unread.
    Unlike the flush of a [Buffer], it releases no chunk: of the package
    state only the cursor's struct changes. *)
Theorem X10_cursor_WriteTo (fuel : nat) (p s : loc) (c : t)
    (d : recyclable.t) (snk : W) (w : World) :
  readers w !! p = Some c ->
  bufs c = Some s ->
  recyclables w !! s = Some d ->
  isClose c = false ->
  pos_ok (recyclable.data d) c ->
  blen (contents (recyclable.data d)) < 2 ^ 63 ->
  (length (recyclable.data d) <= fuel)%nat ->
  exists snk' w',
    WriteTo fuel (Some p) snk w
    = Ok (blen (unread (recyclable.data d) c), None, snk', w')
    /\ out snk' = out snk ++ unread (recyclable.data d) c
    /\ unread (recyclable.data d) (reader_at p w') = []
    /\ pos_ok (recyclable.data d) (reader_at p w')
    /\ w' = put_reader p (reader_at p w') w.
Proof.
  intros Hp Hb Hs Hopen Hpos Htotal Hfuel.
  set (data := recyclable.data d) in *.
  assert (Hdata : data_of c w = data)
    by (unfold data_of; rewrite Hb, Hs; reflexivity).
  pose proof (pos_ok_offsetLen data c Hpos) as Hrange.
  pose proof (unread_len data c Hpos) as Hrest.
  destruct (Len_cached_fields c w) as (Eb & Eo & Ei & El & Ec & Er).
  set (c1 := Len_cached c w) in *. set (w1 := put_reader p c1 w).
  assert (Hpos1 : pos_ok data c1) by (apply pos_ok_Len_cached; assumption).
  assert (Hp1 : readers w1 !! p = Some c1) by apply readers_put_reader.
  assert (Hun1 : unread data c1 = unread data c)
    by (unfold unread; rewrite El; reflexivity).
  assert (Hat : forall c', reader_at p (put_reader p c' w) = c')
    by (intros c'; unfold reader_at; rewrite readers_put_reader; reflexivity).
  unfold WriteTo. monad_simpl. unfold load at 1. monad_simpl.
  rewrite Hp. cbn [default id]. rewrite (Len_eq p c w Hp).
  rewrite (pos_ok_Len_value data c w Hpos Hdata). fold c1 w1.
  destruct (Z.leb_spec (blen (contents data)) (offsetLen c)) as [Hdone | Hleft].
  - (* nothing is left *)
    assert (Hnil : unread data c = []).
    { unfold unread. apply drop_ge. unfold blen in *. lia. }
    exists snk, w1. unfold w1. rewrite (Hat c1), Hun1, Hnil, app_nil_r.
    split; [reflexivity |]. split; [reflexivity |]. split; [reflexivity |].
    split; [exact Hpos1 | reflexivity].
  - unfold load at 1. monad_simpl. rewrite Hp1. cbn [default id].
    rewrite Ec, Hopen, Eb, Hb. unfold recyclable.load. monad_simpl.
    change (recyclables w1) with (recyclables w). rewrite Hs. cbn [default id].
    fold data.
    destruct (WriteTo_loop_spec fuel p data 0 snk w1 c1 Hp1)
      as (c' & snk' & Hrun & Hout & Hpos' & Hol' & _);
      [congruence | exact Hpos1 | lia | rewrite Hun1; lia | exact Htotal
      | lia |].
    rewrite Hun1, Z.add_0_l in Hrun. rewrite Hun1 in Hout.
    unfold w1 in Hrun. rewrite put_reader_twice in Hrun.
    exists snk', (put_reader p c' w). rewrite (Hat c').
    split; [exact Hrun |]. split; [exact Hout |].
    split; [| split; [exact Hpos' | reflexivity]].
    unfold unread. apply drop_ge. rewrite Hol'. unfold blen. lia.
Qed.

End cursor_writing.

Lemma X8_Read_next_bytes_witness :
  exists err dst' w',
    recyclableReadCloser.Read 5 (Some first_loc) (replicate 300 "000"%byte)
      three_cursors
    = Ok (300, err, dst', w')
    /\ take 300 dst' = replicate 300 "a"%byte.
Proof.
  destruct (X8_Read_next_bytes 5 first_loc first_loc
              (cursor_spec.reader_at first_loc three_cursors)
              (default recyclable.zero (recyclables three_cursors !! first_loc))
              (replicate 300 "000"%byte) three_cursors)
    as (n & err & dst' & w' & Hrun & Hn & Htake & _).
  - vm_compute. reflexivity.
  - vm_compute. reflexivity.
  - vm_compute. reflexivity.
  - vm_compute. reflexivity.
  - unfold pos_ok. vm_compute. repeat split; try discriminate.
    + intros buf [= <-]. discriminate.
    + left. reflexivity.
  - vm_compute. lia.
  - assert (Hn' : n = 300) by (rewrite Hn; vm_compute; reflexivity).
    rewrite Hn' in Hrun, Htake. exists err, dst', w'. split; [exact Hrun |].
    change (Z.to_nat 300) with 300%nat in Htake. rewrite Htake.
    vm_compute. reflexivity.
Defined.

Lemma X9_Reset_rereads_witness :
  exists w1 w2,
    recyclableReadCloser.Reset (Some first_loc) (abcdef_read 4) = Ok (tt, w1)
    /\ recyclableReadCloser.Read 1 (Some first_loc) (replicate 6 "000"%byte) w1
       = Ok (6, Some io_EOF, abcdef, w2).
Proof.
  destruct (X9_Reset_rereads 1 first_loc first_loc
              (cursor_spec.reader_at first_loc (abcdef_read 4))
              (default recyclable.zero
                 (recyclables (abcdef_read 4) !! first_loc))
              (replicate 6 "000"%byte) (abcdef_read 4))
    as (w1 & w2 & Hreset & Hread & _).
  - vm_compute. reflexivity.
  - vm_compute. reflexivity.
  - vm_compute. reflexivity.
  - vm_compute. reflexivity.
  - right. vm_compute. reflexivity.
  - vm_compute. reflexivity.
  - vm_compute. lia.
  - exists w1, w2. split; [exact Hreset | exact Hread].
Defined.

Lemma X10_cursor_WriteTo_witness :
  exists snk' w',
    recyclableReadCloser.WriteTo (Writer0 := store_all) 1 (Some first_loc) []
      (abcdef_read 2)
    = Ok (4, None, snk', w')
    /\ snk' = drop 2 abcdef.
Proof.
  destruct (X10_cursor_WriteTo (wr := store_all) (fun snk => snk)
              store_all_accepting 1 first_loc first_loc
              (cursor_spec.reader_at first_loc (abcdef_read 2))
              (default recyclable.zero
                 (recyclables (abcdef_read 2) !! first_loc))
              [] (abcdef_read 2))
    as (snk' & w' & Hrun & Hout & _).
  - vm_compute. reflexivity.
  - vm_compute. reflexivity.
  - vm_compute. reflexivity.
  - vm_compute. reflexivity.
  - unfold pos_ok. vm_compute. repeat split; try discriminate.
    + intros buf [= <-]. discriminate.
    + right. reflexivity.
  - vm_compute. reflexivity.
  - vm_compute. lia.
  - exists snk', w'. split; [exact Hrun | exact Hout].
Defined.

(** ** Building a byte slice from a cursor *)

Section cursor_building.
Import recyclableReadCloser cursor_spec.
Context {rt : Runtime}.

(** X11. [BuildBytes] of a cursor appends the whole content of the chunk
    set to [reuse], whatever the cursor has read and whether or not it is
    closed; when the content is empty it returns nil, not [reuse].  Of the
    package state only the cached length of the cursor may change. *)
Theorem X11_cursor_BuildBytes (p s : loc) (c : t) (d : recyclable.t)
    (reuse : slice) (w : World) :
  readers w !! p = Some c ->
  bufs c = Some s ->
  recyclables w !! s = Some d ->
  size c = 0 \/ size c = blen (contents (recyclable.data d)) ->
  exists r,
    BuildBytes (Some p) reuse w = Ok (r, put_reader p (Len_cached c w) w)
    /\ (contents (recyclable.data d) = [] -> r = nil_slice)
    /\ (contents (recyclable.data d) <> [] ->
        elems r = elems reuse ++ contents (recyclable.data d)).
Proof.
  intros Hp Hb Hs Hsz. set (data := recyclable.data d) in *.
  assert (Hdata : data_of c w = data)
    by (unfold data_of; rewrite Hb, Hs; reflexivity).
  assert (Hval : Len_value c w = blen (contents data)).
  { unfold Len_value. rewrite Hdata, total_len_contents.
    destruct (Z.ltb_spec 0 (size c)); lia. }
  destruct (Len_cached_fields c w) as (Eb & _).
  unfold BuildBytes. monad_simpl. rewrite (Len_eq p c w Hp), Hval.
  unfold load. monad_simpl. rewrite readers_put_reader. cbn [default id].
  rewrite Eb, Hb.
  destruct (Z.eqb_spec (blen (contents data)) 0) as [Hzero | Hpos].
  - exists nil_slice. split; [reflexivity |]. split; [reflexivity |].
    intros Hne. destruct (contents data); [congruence | discriminate].
  - unfold recyclable.load. monad_simpl.
    change (recyclables (put_reader p (Len_cached c w) w))
      with (recyclables w).
    rewrite Hs. cbn [default id]. fold data.
    eexists. split; [reflexivity |]. split.
    + intros Hnil. rewrite Hnil in Hpos. exfalso. apply Hpos. reflexivity.
    + intros _. apply fold_append_elems.
Qed.

End cursor_building.

Lemma X11_cursor_BuildBytes_witness :
  exists r w',
    recyclableReadCloser.BuildBytes (H := exact_growth) (Some first_loc)
      (mkSlice ["x"%byte] 1) (abcdef_read 4)
    = Ok (r, w')
    /\ elems r = "x"%byte :: abcdef.
Proof.
  destruct (X11_cursor_BuildBytes (rt := exact_growth) first_loc first_loc
              (cursor_spec.reader_at first_loc (abcdef_read 4))
              (default recyclable.zero
                 (recyclables (abcdef_read 4) !! first_loc))
              (mkSlice ["x"%byte] 1) (abcdef_read 4))
    as (r & Hrun & _ & Hall).
  - vm_compute. reflexivity.
  - vm_compute. reflexivity.
  - vm_compute. reflexivity.
  - right. vm_compute. reflexivity.
  - eexists r, _. split; [exact Hrun |]. apply Hall. vm_compute. discriminate.
Defined.

(** ** The one-shot reader *)

Section once_reading.
Import readCloser.

Lemma release_all_app (l1 l2 : list slice) (w : World) :
  release_all (l1 ++ l2) w = release_all l2 (release_all l1 w).
Proof. unfold release_all. apply fold_left_app. Qed.

Lemma once_unread_cons (r : t) (buf : slice) (l : list slice) :
  bufs r = buf :: l -> once_ok r ->
  once_unread r = drop (Z.to_nat (offset r)) (elems buf) ++ contents l.
Proof.
  intros Hb (Ho & Hin). unfold once_unread. rewrite Hb.
  unfold contents. cbn [map concat].
  specialize (Hin buf). rewrite Hb in Hin. specialize (Hin eq_refl).
  apply drop_app_le. unfold len in Hin. lia.
Qed.

Lemma once_result_eq (r : t) (d d' : list byte) (n n' : Z) (w : World) :
  d = d' -> n = n' -> Ok (r, d, n, w) = Ok (r, d', n', w).
Proof. intros -> ->. reflexivity. Qed.

(** The loop of [Read]: the chunks it drains are released and dropped
    from the reader, one after the other. *)
Lemma once_Read_loop_spec (l : list slice) :
  forall (r : t) (dst : list byte) (n : Z) (w : World),
    bufs r = l -> once_ok r -> 0 <= n <= blen dst ->
    exists (j : nat) (r' : t),
      Read_loop l r dst n w
      = Ok (r',
            take (Z.to_nat n) dst
            ++ take (Z.to_nat (Z.min (blen dst - n) (blen (once_unread r))))
                 (once_unread r)
            ++ drop (Z.to_nat
                       (n + Z.min (blen dst - n) (blen (once_unread r)))) dst,
            n + Z.min (blen dst - n) (blen (once_unread r)),
            release_all (take j l) w)
      /\ bufs r' = drop j l
      /\ once_ok r'
      /\ once_unread r'
         = drop (Z.to_nat (Z.min (blen dst - n) (blen (once_unread r))))
             (once_unread r)
      /\ (n + Z.min (blen dst - n) (blen (once_unread r)) < blen dst ->
          bufs r' = []).
Proof.
  induction l as [|buf l IH]; intros r dst n w Hb Hok Hn.
  - assert (Hnil : once_unread r = []).
    { unfold once_unread. rewrite Hb. apply drop_nil. }
    rewrite Hnil. change (blen []) with 0. rewrite Z.min_r by lia.
    exists 0%nat, r. cbn [Read_loop]. unfold ret.
    rewrite Z.add_0_r. change (Z.to_nat 0) with 0%nat.
    cbn [take drop app]. rewrite take_drop.
    split; [reflexivity |]. split; [exact Hb |]. split; [exact Hok |].
    split; [exact Hnil |]. intros _. exact Hb.
  - pose proof Hok as (Ho & Hin).
    pose proof (Hin buf ltac:(rewrite Hb; reflexivity)) as Hoff.
    pose proof (once_unread_cons r buf l Hb Hok) as Hunread.
    set (src := drop (Z.to_nat (offset r)) (elems buf)) in *.
    set (later := contents l) in *.
    set (room := drop (Z.to_nat n) dst).
    assert (Hsrc : blen src = len buf - offset r).
    { unfold src. rewrite blen_drop; [reflexivity |]. unfold len in Hoff.
      unfold blen. lia. }
    assert (Hroom : blen room = blen dst - n)
      by (unfold room; apply blen_drop; lia).
    set (moved := copy (blen room) src).
    assert (Hx : blen moved = Z.min (blen dst - n) (blen src)).
    { unfold moved, copy. rewrite blen_take, Hroom; lia. }
    pose proof (blen_nonneg src) as Hsrc0.
    pose proof (blen_nonneg later) as Hlater0.
    assert (Hun_len : blen (once_unread r) = blen src + blen later)
      by (rewrite Hunread; apply blen_app).
    cbn [Read_loop]. unfold slice_from.
    destruct (Z.leb_spec 0 (offset r)); [| lia].
    destruct (Z.leb_spec (offset r) (blen (elems buf)));
      [| unfold len, blen in *; lia].
    destruct (Z.leb_spec 0 n); [| lia].
    destruct (Z.leb_spec n (blen dst)); [| lia].
    cbn [andb]. monad_simpl. fold src room moved. rewrite Hx.
    destruct (Z.eqb_spec (offset r + Z.min (blen dst - n) (blen src))
                (len buf)) as [Hdrained | Hpartial].
    + (* the chunk is drained and released *)
      assert (Hfit : blen src <= blen dst - n) by lia.
      rewrite Z.min_r in * by lia.
      assert (Hmoved : moved = src).
      { unfold moved, copy. apply take_ge. unfold blen in *. lia. }
      rewrite Hmoved, Hb. cbv beta iota.
      set (r1 := mk 0 l).
      set (dst1 := take (Z.to_nat n) dst ++ src
                   ++ drop (Z.to_nat (blen src)) room).
      assert (Hdst1 : blen dst1 = blen dst).
      { unfold dst1. rewrite !blen_app, blen_take by lia.
        unfold room. rewrite drop_drop, <- Z2Nat.inj_add by lia.
        rewrite blen_drop by lia. lia. }
      assert (Hok1 : once_ok r1).
      { split; [cbn; lia |]. intros b' _. cbn [offset r1]. unfold len. lia. }
      assert (Hun1 : once_unread r1 = later) by reflexivity.
      destruct (Z.eqb_spec (n + blen src) (blen dst1)) as [Hfull | Hmore].
      * exists 1%nat, r1.
        assert (Hk : Z.min (blen dst - n) (blen (once_unread r)) = blen src)
          by lia.
        rewrite Hk. split.
        { unfold ret. apply once_result_eq; [| reflexivity].
          unfold dst1, room. rewrite Hunread.
          rewrite take_app_length' by (unfold blen; lia).
          rewrite drop_drop, <- Z2Nat.inj_add by lia. reflexivity. }
        split; [reflexivity |]. split; [exact Hok1 |].
        split; [| intros; lia].
        rewrite Hun1, Hunread, drop_app_length' by (unfold blen; lia).
        reflexivity.
      * destruct (IH r1 dst1 (n + blen src) (putBuf buf w))
          as (j & r' & Hrun & Hb' & Hok' & Hun' & Hend');
          [reflexivity | exact Hok1 | lia |].
        rewrite Hun1, Hdst1 in Hrun, Hun', Hend'.
        exists (S j), r'. rewrite Hrun.
        assert (Hk : Z.min (blen dst - n) (blen (once_unread r))
                     = blen src
                       + Z.min (blen dst - (n + blen src)) (blen later))
          by lia.
        rewrite Hk.
        set (k' := Z.min (blen dst - (n + blen src)) (blen later)) in *.
        assert (Hk' : 0 <= k') by (unfold k'; lia).
        split.
        { apply once_result_eq; [| lia].
          unfold dst1, room. rewrite Hunread.
          replace (Z.to_nat (n + blen src))
            with (Z.to_nat n + length src)%nat by (unfold blen; lia).
          replace (Z.to_nat (n + blen src + k'))
            with (Z.to_nat n + length src + Z.to_nat k')%nat
            by (unfold blen; lia).
          replace (Z.to_nat (n + (blen src + k')))
            with (Z.to_nat n + length src + Z.to_nat k')%nat
            by (unfold blen; lia).
          replace (Z.to_nat (blen src + k'))
            with (length src + Z.to_nat k')%nat by (unfold blen; lia).
          replace (Z.to_nat (blen src)) with (length src)
            by (unfold blen; lia).
          apply splice_twice. unfold blen in *. lia. }
        split; [exact Hb' |]. split; [exact Hok' |].
        split; [| intros; apply Hend'; lia].
        rewrite Hun', Hunread.
        replace (Z.to_nat (blen src + k'))
          with (length src + Z.to_nat k')%nat by (unfold blen; lia).
        rewrite drop_app_add. reflexivity.
    + (* the destination is full before the chunk is drained *)
      assert (Hshort : blen dst - n < blen src) by lia.
      rewrite Z.min_l in * by lia. cbv beta iota.
      set (r1 := mk (offset r + (blen dst - n)) (bufs r)).
      set (dst1 := take (Z.to_nat n) dst ++ moved
                   ++ drop (Z.to_nat (blen dst - n)) room).
      assert (Hdst1 : blen dst1 = blen dst).
      { unfold dst1. rewrite !blen_app, blen_take, Hx by lia.
        unfold room. rewrite drop_drop, <- Z2Nat.inj_add by lia.
        rewrite blen_drop by lia. lia. }
      destruct (Z.eqb_spec (n + (blen dst - n)) (blen dst1)) as [_ | Hne];
        [| lia].
      exists 0%nat, r1. rewrite Z.min_l by lia.
      split.
      { unfold ret. apply once_result_eq; [| reflexivity].
        unfold dst1, moved, copy. rewrite Hunread, Hroom. unfold room.
        rewrite take_app_le by (unfold blen in *; lia).
        do 2 f_equal. rewrite drop_drop. f_equal. lia. }
      split; [exact Hb |].
      split.
      { split; [cbn [r1 offset]; lia |].
        intros b'. cbn [r1 offset bufs]. rewrite Hb. intros [= <-]. lia. }
      split; [| intros; lia].
      unfold once_unread. cbn [r1 offset bufs].
      rewrite drop_drop. f_equal. lia.
Qed.

(** [Read] of the one-shot reader. *)
Lemma once_Read_eq (r : t) (dst : list byte) (w : World) :
  once_ok r ->
  let k := Z.min (blen dst) (blen (once_unread r)) in
  exists (j : nat) (r' : t),
    Read r dst w
    = Ok (k, (if Z.of_nat (length (bufs r')) =? 0 then Some io_EOF else None),
          take (Z.to_nat k) (once_unread r) ++ drop (Z.to_nat k) dst, r',
          release_all (take j (bufs r)) w)
    /\ bufs r' = drop j (bufs r)
    /\ once_ok r'
    /\ once_unread r' = drop (Z.to_nat k) (once_unread r)
    /\ (k < blen dst -> bufs r' = []).
Proof.
  intros Hok k. pose proof (blen_nonneg dst) as Hdst.
  destruct (once_Read_loop_spec (bufs r) r dst 0 w eq_refl Hok)
    as (j & r' & Hrun & Hb' & Hok' & Hun' & Hend'); [lia |].
  rewrite Z.sub_0_r, Z.add_0_l in Hrun, Hend'. rewrite Z.sub_0_r in Hun'.
  fold k in Hrun, Hun', Hend'.
  exists j, r'. unfold Read. monad_simpl. rewrite Hrun. cbv beta iota.
  split; [| auto].
  destruct (Z.of_nat (length (bufs r')) =? 0); reflexivity.
Qed.

(** X12. [Read] of the one-shot reader delivers the undelivered bytes in
    order: it returns [n], the smaller of the destination's length and the
    number of undelivered bytes, with the next [n] bytes at the front of
    the destination and the rest of it untouched.  The chunks it has
    drained, a prefix of the reader's chunk list, are released to the pool
    in order and dropped from the reader, so no chunk the reader still
    holds has been released.  The error is [io.EOF] exactly when the
    reader holds no chunk any more, and a [Read] that does not fill the
    destination always ends with [io.EOF]. *)
Theorem X12_once_Read (r : t) (dst : list byte) (w : World) :
  once_ok r ->
  exists (j : nat) (n : Z) (err : option error) (dst' : list byte) (r' : t),
    Read r dst w = Ok (n, err, dst', r', release_all (take j (bufs r)) w)
    /\ n = Z.min (blen dst) (blen (once_unread r))
    /\ take (Z.to_nat n) dst' = take (Z.to_nat n) (once_unread r)
    /\ drop (Z.to_nat n) dst' = drop (Z.to_nat n) dst
    /\ bufs r = take j (bufs r) ++ bufs r'
    /\ once_ok r'
    /\ once_unread r' = drop (Z.to_nat n) (once_unread r)
    /\ (err = Some io_EOF <-> bufs r' = [])
    /\ (err = None \/ err = Some io_EOF)
    /\ (n < blen dst -> err = Some io_EOF).
Proof.
  intros Hok.
  destruct (once_Read_eq r dst w Hok) as (j & r' & Hrun & Hb' & Hok' & Hun' & Hend').
  set (k := Z.min (blen dst) (blen (once_unread r))) in *.
  pose proof (blen_nonneg dst) as Hdst.
  pose proof (blen_nonneg (once_unread r)) as Hrest.
  assert (Hlen : length (take (Z.to_nat k) (once_unread r)) = Z.to_nat k)
    by (rewrite length_take; unfold blen in *; lia).
  assert (Herr : (Z.of_nat (length (bufs r')) =? 0) = true <-> bufs r' = []).
  { rewrite Z.eqb_eq. destruct (bufs r'); cbn [length]; split;
      intros; (reflexivity || discriminate || lia). }
  eexists j, k, _, _, r'. split; [exact Hrun |].
  split; [reflexivity |].
  split; [rewrite <- Hlen at 1; rewrite take_app_length; reflexivity |].
  split; [rewrite <- Hlen at 1; rewrite drop_app_length; reflexivity |].
  split; [rewrite Hb'; symmetry; apply take_drop |].
  split; [exact Hok' |]. split; [exact Hun' |].
  destruct (Z.of_nat (length (bufs r')) =? 0) eqn:E.
  - split; [split; intros _; [apply Herr |]; reflexivity |].
    split; [right |]; reflexivity.
  - split.
    { split; [discriminate |]. intros Hnil. apply Herr in Hnil. discriminate. }
    split; [left; reflexivity |].
    intros Hshort. apply Hend', Herr in Hshort. discriminate.
Qed.

(** [Close] releases what the reader holds. *)
Lemma once_Close_eq (r : t) (w : World) :
  Close r w = Ok (None, mk (offset r) [], release_all (bufs r) w).
Proof. reflexivity. Qed.

(** X13. Whatever a [Read] has delivered, a [Close] after it leaves the
    pool as it is after releasing every chunk of the reader once, in
    order: the chunks [Read] has drained are not released again.  After
    [Close] the reader holds no chunk: a second [Close] changes nothing and
    [Read] returns [(0, io.EOF)] without touching the destination. *)
Theorem X13_once_Read_Close (r : t) (dst : list byte) (w : World) :
  once_ok r ->
  exists n err dst' r1 w1 r2,
    Read r dst w = Ok (n, err, dst', r1, w1)
    /\ Close r1 w1 = Ok (None, r2, release_all (bufs r) w)
    /\ (forall w2, Close r2 w2 = Ok (None, r2, w2))
    /\ (forall dst2 w2, Read r2 dst2 w2 = Ok (0, Some io_EOF, dst2, r2, w2)).
Proof.
  intros Hok.
  destruct (once_Read_eq r dst w Hok) as (j & r1 & Hrun & Hb1 & _).
  eexists _, _, _, r1, _, (mk (offset r1) []).
  split; [exact Hrun |].
  split.
  - rewrite once_Close_eq, Hb1, <- release_all_app, take_drop. reflexivity.
  - split; intros; reflexivity.
Qed.

End once_reading.

Lemma X12_once_Read_witness :
  exists j err dst' r',
    readCloser.Read (fst (Buffer.ReadCloser buffer_2000))
      (replicate 500 "000"%byte) init_world
    = Ok (500, err, dst', r',
          release_all
            (take j (readCloser.bufs (fst (Buffer.ReadCloser buffer_2000))))
            init_world)
    /\ take 500 dst' = replicate 500 "a"%byte.
Proof.
  destruct (X12_once_Read (fst (Buffer.ReadCloser buffer_2000))
              (replicate 500 "000"%byte) init_world)
    as (j & n & err & dst' & r' & Hrun & Hn & Htake & _).
  - split; [vm_compute; discriminate |].
    intros buf Hbuf. vm_compute in Hbuf. injection Hbuf as <-.
    vm_compute. discriminate.
  - assert (Hn' : n = 500) by (rewrite Hn; vm_compute; reflexivity).
    rewrite Hn' in Hrun, Htake.
    exists j, err, dst', r'. split; [exact Hrun |].
    change (Z.to_nat 500) with 500%nat in Htake. rewrite Htake.
    vm_compute. reflexivity.
Defined.

Lemma X13_once_Read_Close_witness :
  exists n err dst' r1 w1 r2,
    readCloser.Read (fst (Buffer.ReadCloser buffer_2000))
      (replicate 500 "000"%byte) init_world
    = Ok (n, err, dst', r1, w1)
    /\ readCloser.Close r1 w1
       = Ok (None, r2,
             release_all
               (readCloser.bufs (fst (Buffer.ReadCloser buffer_2000)))
               init_world).
Proof.
  destruct (X13_once_Read_Close (fst (Buffer.ReadCloser buffer_2000))
              (replicate 500 "000"%byte) init_world)
    as (n & err & dst' & r1 & w1 & r2 & Hrun & Hclose & _).
  - split; [vm_compute; discriminate |].
    intros buf Hbuf. vm_compute in Hbuf. injection Hbuf as <-.
    vm_compute. discriminate.
  - exists n, err, dst', r1, w1, r2. split; [exact Hrun | exact Hclose].
Defined.

(** ** Writing out the one-shot reader *)

Section once_output.
Import readCloser.
Context {W : Type} {wr : Writer W} (out : W -> list byte) {rt : Runtime}.
Hypothesis Hacc : accepting out.

Lemma len_le_contents (buf : slice) (l : list slice) :
  len buf <= blen (contents (buf :: l)).
Proof.
  unfold contents. cbn [map concat]. rewrite blen_app.
  pose proof (blen_nonneg (concat (map elems l))). unfold len, blen in *. lia.
Qed.

(** [consume] after a complete write clears every entry of the array. *)
Lemma consume_all (l : list slice) :
  forall n, blen (contents l) <= n ->
    net_Buffers_consume l n = Ok (replicate (length l) nil_slice).
Proof.
  induction l as [|buf l IH]; intros n Hn; [reflexivity |].
  pose proof (len_le_contents buf l) as Hle.
  cbn [net_Buffers_consume length replicate].
  destruct (Z.ltb_spec n (len buf)); [lia |].
  rewrite IH; [reflexivity |].
  unfold contents in *. cbn [map concat] in Hn. rewrite blen_app in Hn.
  unfold len, blen in *. lia.
Qed.

(** Releasing nil slices does nothing when pooled chunks have a positive
    size. *)
Lemma release_all_nil (k : nat) (w : World) :
  0 < PooledSize (config w) ->
  release_all (replicate k nil_slice) w = w.
Proof.
  intros Hpos. induction k as [|k IH]; [reflexivity |].
  cbn [replicate]. unfold release_all in *. cbn [fold_left].
  unfold putBuf at 2. cbn [cap nil_slice].
  destruct (Z.ltb_spec 0 (PooledSize (config w))); [exact IH | lia].
Qed.

Lemma once_WriteTo_eq (r : t) (snk : W) (w : World) :
  blen (contents (bufs r)) < 2 ^ 63 ->
  exists snk',
    WriteTo snk r w
    = Ok (blen (contents (bufs r)), None, snk', mk (offset r) [],
          release_all (replicate (length (bufs r)) nil_slice) w)
    /\ out snk' = out snk ++ contents (bufs r).
Proof.
  intros Htotal. pose proof (blen_nonneg (contents (bufs r))) as Hnn.
  destruct (WriteTo_spilled_accepting out (bufs r) Hacc 0 snk)
    as (snk' & _ & Hrun & Hout); [lia | lia |].
  rewrite Z.add_0_l in Hrun.
  exists snk'. split; [| exact Hout].
  unfold WriteTo. rewrite Hrun. unfold lift, range_do. monad_simpl.
  rewrite consume_all by lia. reflexivity.
Qed.

Lemma once_String_eq (r : t) : String r = Ok (contents (bufs r)).
Proof.
  unfold String. fold (total_len (bufs r)). rewrite total_len_contents.
  pose proof (blen_nonneg (contents (bufs r))) as Hnn.
  destruct (Z.eqb_spec (blen (contents (bufs r))) 0) as [Hzero | Hpos].
  - destruct (contents (bufs r)); [reflexivity | discriminate].
  - unfold make. destruct (Z.ltb_spec (blen (contents (bufs r))) 0); [lia |].
    rewrite fold_append_elems. reflexivity.
Qed.

(** X14. [WriteTo] and [String] of the one-shot reader give the content of
    all the chunks the reader holds, from the first byte of the first chunk
    on: the offset is not consulted, so bytes of the first chunk that
    [Read] has delivered already are given once more.  [WriteTo], with a
    writer that accepts everything, reports the number of these bytes and
    no error, and leaves the reader without chunks. *)
Theorem X14_once_WriteTo_String (r : t) (snk : W) (w : World) :
  blen (contents (bufs r)) < 2 ^ 63 ->
  exists snk' r' w',
    WriteTo snk r w = Ok (blen (contents (bufs r)), None, snk', r', w')
    /\ out snk' = out snk ++ contents (bufs r)
    /\ bufs r' = []
    /\ String r = Ok (contents (bufs r)).
Proof.
  intros Htotal.
  destruct (once_WriteTo_eq r snk w Htotal) as (snk' & Hrun & Hout).
  eexists snk', _, _. split; [exact Hrun |].
  split; [exact Hout |]. split; [reflexivity |]. apply once_String_eq.
Qed.

(** X15. [WriteTo] of the one-shot reader, with a writer that accepts
    everything, releases no chunk: the standard library clears the entries
    of the array it has written, which is the array of the reader's chunk
    list, so the release loop that follows meets nil slices only.  With a
    positive pooled size the package state is unchanged, where [Close] on
    the same reader releases every chunk. *)
Theorem X15_once_WriteTo_releases_nothing (r : t) (snk : W) (w : World) :
  blen (contents (bufs r)) < 2 ^ 63 ->
  0 < PooledSize (config w) ->
  exists snk' r',
    WriteTo snk r w = Ok (blen (contents (bufs r)), None, snk', r', w)
    /\ Close r w = Ok (None, r', release_all (bufs r) w).
Proof.
  intros Htotal Hpooled.
  destruct (once_WriteTo_eq r snk w Htotal) as (snk' & Hrun & _).
  rewrite release_all_nil in Hrun by exact Hpooled.
  exists snk', (mk (offset r) []). split; [exact Hrun | reflexivity].
Qed.

End once_output.

Lemma X14_once_WriteTo_String_witness :
  exists snk' r' w',
    readCloser.WriteTo (Writer0 := store_all) []
      (readCloser.mk 2 [mkSlice abcdef 8]) init_world
    = Ok (6, None, snk', r', w')
    /\ snk' = abcdef
    /\ readCloser.String (H := exact_growth)
         (readCloser.mk 2 [mkSlice abcdef 8])
       = Ok abcdef.
Proof.
  destruct (X14_once_WriteTo_String (wr := store_all) (fun snk => snk)
              (rt := exact_growth) store_all_accepting
              (readCloser.mk 2 [mkSlice abcdef 8]) [] init_world)
    as (snk' & r' & w' & Hrun & Hout & _ & Hstr).
  - vm_compute. reflexivity.
  - exists snk', r', w'. split; [exact Hrun |].
    split; [exact Hout | exact Hstr].
Defined.

Lemma X15_once_WriteTo_releases_nothing_witness :
  exists snk' r',
    readCloser.WriteTo (Writer0 := store_all) []
      (fst (Buffer.ReadCloser buffer_2000)) init_world
    = Ok (2000, None, snk', r', init_world)
    /\ readCloser.Close (fst (Buffer.ReadCloser buffer_2000)) init_world
       = Ok (None, r',
             release_all
               (readCloser.bufs (fst (Buffer.ReadCloser buffer_2000)))
               init_world).
Proof.
  destruct (X15_once_WriteTo_releases_nothing (wr := store_all)
              (fun snk => snk) store_all_accepting
              (fst (Buffer.ReadCloser buffer_2000)) [] init_world)
    as (snk' & r' & Hrun & Hclose).
  - vm_compute. reflexivity.
  - vm_compute. reflexivity.
  - exists snk', r'. split; [| exact Hclose].
    rewrite Hrun. vm_compute. reflexivity.
Defined.

(** ** Handing a buffer over to the one-shot reader *)

Section once_handoff.

Lemma putBuf_cap (a b : slice) (w : World) :
  cap a = cap b -> putBuf a w = putBuf b w.
Proof. intros Hc. unfold putBuf, reslice0. rewrite Hc. reflexivity. Qed.

Lemma contents_snoc (l : list slice) (x : slice) :
  contents (l ++ [x]) = contents l ++ elems x.
Proof.
  rewrite contents_app. unfold contents at 2. cbn [map concat].
  rewrite app_nil_r. reflexivity.
Qed.

(** X16. [ReadCloser] hands the chunks of a buffer over to a one-shot
    reader and leaves the buffer as the zero value.  One [Read] into a
    destination of the buffer's size delivers the buffer's content, and
    after the [Close] that follows every spilled chunk and the active chunk
    [Buf] have been released, once each.  When the active chunk has the
    capacity of the chunk recorded in [toPool] (no append from outside has
    reallocated it), this is the pool a flush of the buffer leaves. *)
Theorem X16_ReadCloser_handoff (b : Buffer.t) (dst : list byte) (w : World) :
  blen dst = Buffer.Size b ->
  exists err r1 w1 r2,
    snd (Buffer.ReadCloser b) = Buffer.zero
    /\ readCloser.Read (fst (Buffer.ReadCloser b)) dst w
       = Ok (Buffer.Size b, err, Buffer_contents b, r1, w1)
    /\ readCloser.Close r1 w1
       = Ok (None, r2,
             putBuf (Buffer.Buf b) (release_all (Buffer.bufs b) w))
    /\ (cap (Buffer.toPool b) = cap (Buffer.Buf b) ->
        putBuf (Buffer.Buf b) (release_all (Buffer.bufs b) w)
        = putBuf (Buffer.toPool b) (release_all (Buffer.bufs b) w)).
Proof.
  intros Hdst.
  set (r := fst (Buffer.ReadCloser b)).
  assert (Hok : once_ok r).
  { unfold r, once_ok. cbn [fst Buffer.ReadCloser readCloser.offset].
    split; [lia |]. intros buf _. unfold len. lia. }
  assert (Hun : once_unread r = Buffer_contents b).
  { unfold r, once_unread, Buffer_contents.
    cbn [fst Buffer.ReadCloser readCloser.offset readCloser.bufs].
    change (Z.to_nat 0) with 0%nat. rewrite drop_0. apply contents_snoc. }
  destruct (once_Read_eq r dst w Hok) as (j & r1 & Hrun & Hb1 & _).
  rewrite Hun, Hdst, Size_contents, Z.min_id in Hrun.
  eexists _, r1, _, (readCloser.mk (readCloser.offset r1) []).
  split; [reflexivity |]. split; [| split].
  - rewrite Hrun, Size_contents. f_equal. f_equal. f_equal.
    pose proof (Size_contents b) as Hsize.
    rewrite take_ge, drop_ge, app_nil_r; [reflexivity | |];
      unfold blen in *; lia.
  - rewrite once_Close_eq, Hb1, <- release_all_app, take_drop.
    cbn [r fst Buffer.ReadCloser readCloser.bufs].
    rewrite release_all_app. reflexivity.
  - intros Hcap. apply putBuf_cap. congruence.
Qed.

End once_handoff.

Lemma X16_ReadCloser_handoff_witness :
  exists err r1 w1 r2,
    snd (Buffer.ReadCloser reallocated_buffer) = Buffer.zero
    /\ readCloser.Read (fst (Buffer.ReadCloser reallocated_buffer))
         (replicate 300 "000"%byte) init_world
       = Ok (300, err, Buffer_contents reallocated_buffer, r1, w1)
    /\ readCloser.Close r1 w1
       = Ok (None, r2,
             putBuf (Buffer.Buf reallocated_buffer)
               (release_all (Buffer.bufs reallocated_buffer) init_world)).
Proof.
  destruct (X16_ReadCloser_handoff reallocated_buffer
              (replicate 300 "000"%byte) init_world)
    as (err & r1 & w1 & r2 & Hzero & Hread & Hclose & _).
  - vm_compute. reflexivity.
  - exists err, r1, w1, r2. split; [exact Hzero |].
    split; [exact Hread | exact Hclose].
Defined.

(** ** Filling a buffer from a reader *)

Section reading_from.
Import Buffer.
Context {R : Type} {rd : Reader R} (remaining : R -> list byte)
  (final : error) {rt : Runtime}.
Hypothesis Hdel : delivering remaining final.

(** Appending the waiting bytes [buf[:i]] of the working block. *)
Lemma append_front (buf : list byte) (i : Z) (b : t) (w : World) :
  0 <= i <= blen buf -> blen buf = ReadFrom_c ->
  valid_config (config w) -> pool_ok w -> buf_inv (config w) b ->
  exists b' w',
    AppendBytes (Z.to_nat ReadFrom_c) (take (Z.to_nat i) buf) b w
    = Ok (b', w')
    /\ slice_to buf i = Ok (take (Z.to_nat i) buf)
    /\ config w' = config w /\ pool_ok w' /\ buf_inv (config w) b'
    /\ Buffer_contents b' = Buffer_contents b ++ take (Z.to_nat i) buf.
Proof.
  intros Hi Hlen Hcfg Hok Hinv.
  destruct (AppendBytes_ok (Z.to_nat ReadFrom_c) (take (Z.to_nat i) buf) b w)
    as (b' & w' & Hrun & Hc & Hok' & Hinv' & Hcont);
    [| assumption | assumption | assumption |].
  { rewrite length_take. unfold blen in *. lia. }
  exists b', w'. split; [exact Hrun |].
  split; [| auto].
  unfold slice_to.
  destruct (Z.leb_spec 0 i); [| lia].
  destruct (Z.leb_spec i (blen buf)); [reflexivity | lia].
Qed.

Ltac same_count :=
  match goal with
  | |- Ok (?a, _, _, _, _) = Ok (?b, _, _, _, _) =>
      replace b with a by lia; reflexivity
  end.

Lemma ReadFrom_loop_spec (fuel : nat) :
  forall (r : R) (buf : list byte) (i n : Z) (b : t) (w : World),
    (length (remaining r) < fuel)%nat ->
    blen buf = ReadFrom_c -> 0 <= i < ReadFrom_c ->
    valid_config (config w) -> pool_ok w -> buf_inv (config w) b ->
    exists r' b' w',
      ReadFrom_loop fuel r buf i n b w
      = Ok (n + i + blen (remaining r), ReadFrom_err final, r', b', w')
      /\ remaining r' = []
      /\ Buffer_contents b'
         = Buffer_contents b ++ take (Z.to_nat i) buf ++ remaining r
      /\ config w' = config w /\ pool_ok w' /\ buf_inv (config w) b'.
Proof.
  induction fuel as [|fuel IH];
    intros r buf i n b w Hfuel Hlen Hi Hcfg Hok Hinv; [lia |].
  set (region := take (Z.to_nat (ReadFrom_c - i)) (drop (Z.to_nat i) buf)).
  assert (Hregion : slice_between buf i ReadFrom_c = Ok region).
  { unfold slice_between.
    destruct (Z.leb_spec 0 i); [| lia].
    destruct (Z.leb_spec i ReadFrom_c); [| lia].
    destruct (Z.leb_spec ReadFrom_c (blen buf)); [reflexivity | lia]. }
  assert (Hroom : blen region = ReadFrom_c - i).
  { unfold region. rewrite blen_take, blen_drop by lia. lia. }
  destruct (Hdel r (blen region)) as (chunk & e & r1 & Hread & Hfit & Hrem & Hnone & Hsome);
    [lia |].
  cbn [ReadFrom_loop]. rewrite Hregion. unfold lift at 1. unfold bind at 1.
  rewrite Hread.
  assert (Hchunk0 : 0 <= blen chunk) by apply blen_nonneg.
  assert (Hstored : take (length region) chunk = chunk)
    by (apply take_ge; unfold blen in *; lia).
  rewrite Hstored.
  set (buf1 := take (Z.to_nat i) buf ++ chunk ++ drop (length chunk) region).
  assert (Hlen1 : blen buf1 = ReadFrom_c).
  { unfold buf1. rewrite !blen_app, blen_take by lia.
    replace (length chunk) with (Z.to_nat (blen chunk)) by (unfold blen; lia).
    rewrite blen_drop by lia. lia. }
  assert (Hfront1 : take (Z.to_nat (i + blen chunk)) buf1
                    = take (Z.to_nat i) buf ++ chunk).
  { unfold buf1. rewrite app_assoc. apply take_app_length'.
    rewrite length_app, length_take. unfold blen in *. lia. }
  rewrite wrap64_id by (unfold ReadFrom_c in *; lia).
  assert (Herr : forall (e' : error) (n1 : Z) (b1 : t) (w1 : World),
             match e' with
             | io_EOF => fun w0 : World => Ok (n1, None, r1, b1, w0)
             | _ => fun w0 : World => Ok (n1, Some e', r1, b1, w0)
             end w1 = Ok (n1, ReadFrom_err e', r1, b1, w1))
    by (intros [] ? ? ?; reflexivity).
  assert (Hrem_len : blen (remaining r) = blen chunk + blen (remaining r1))
    by (rewrite Hrem; apply blen_app).
  destruct (Z.eqb_spec (i + blen chunk) ReadFrom_c) as [Hfull | Hpart].
  - (* the working block is full: append it *)
    destruct (append_front buf1 (i + blen chunk) b w)
      as (b1 & w1 & Happ & Hto & Hc1 & Hok1 & Hinv1 & Hcont1);
      [lia | exact Hlen1 | assumption | assumption | assumption |].
    rewrite Hto. unfold lift at 1. monad_simpl. rewrite Happ.
    rewrite Hfront1 in Hcont1.
    destruct e as [e'|].
    + destruct (Hsome ltac:(discriminate)) as ([= ->] & Hnil).
      destruct (Z.ltb_spec 0 0); [lia |]. rewrite Herr.
      exists r1, b1, w1. rewrite Hrem_len, Hnil, Hrem, Hnil, app_nil_r.
      change (blen []) with 0.
      split; [same_count |].
      split; [reflexivity |]. split; [exact Hcont1 | auto].
    + specialize (Hnone eq_refl).
      destruct (IH r1 buf1 0 (n + (i + blen chunk)) b1 w1)
        as (r' & b' & w' & Hrun & Hnil & Hcont & Hc' & Hok' & Hinv');
        [| exact Hlen1 | unfold ReadFrom_c; lia | rewrite Hc1; assumption
         | assumption | rewrite Hc1; assumption |].
      { apply (f_equal (@length byte)) in Hrem. rewrite length_app in Hrem.
        destruct chunk; [congruence | cbn [length] in Hrem; lia]. }
      exists r', b', w'. rewrite Hrun.
      split; [same_count |].
      split; [exact Hnil |].
      split; [rewrite Hcont, Hcont1, Hrem, <- !app_assoc; reflexivity |].
      rewrite Hc1 in Hc', Hinv'. auto.
  - (* bytes are left waiting in the working block *)
    monad_simpl.
    destruct e as [e'|].
    + destruct (Hsome ltac:(discriminate)) as ([= ->] & Hnil).
      rewrite Hrem_len, Hnil, Hrem, Hnil, app_nil_r. change (blen []) with 0.
      destruct (Z.ltb_spec 0 (i + blen chunk)) as [Hwait | Hnone'].
      * destruct (append_front buf1 (i + blen chunk) b w)
          as (b1 & w1 & Happ & Hto & Hc1 & Hok1 & Hinv1 & Hcont1);
          [lia | exact Hlen1 | assumption | assumption | assumption |].
        rewrite Hto, Happ, Herr. rewrite Hfront1 in Hcont1.
        exists r1, b1, w1.
        split; [same_count |].
        split; [exact Hnil |]. split; [exact Hcont1 | auto].
      * rewrite Herr. exists r1, b, w.
        assert (Hi0 : i = 0) by lia.
        assert (Hc0 : chunk = []).
        { destruct chunk as [|x l]; [reflexivity | exfalso].
          unfold blen in Hnone'. cbn [length] in Hnone'. lia. }
        subst i chunk. change (blen []) with 0.
        split; [same_count |].
        split; [exact Hnil |].
        split; [cbn [Z.to_nat take app]; rewrite app_nil_r; reflexivity |].
        auto.
    + specialize (Hnone eq_refl).
      destruct (IH r1 buf1 (i + blen chunk) n b w)
        as (r' & b' & w' & Hrun & Hnil & Hcont & Hc' & Hok' & Hinv');
        [| exact Hlen1 | lia | assumption | assumption | assumption |].
      { apply (f_equal (@length byte)) in Hrem. rewrite length_app in Hrem.
        destruct chunk; [congruence | cbn [length] in Hrem; lia]. }
      exists r', b', w'. rewrite Hrun.
      split; [same_count |].
      split; [exact Hnil |].
      split; [rewrite Hcont, Hfront1, Hrem, <- !app_assoc; reflexivity |].
      auto.
Qed.

(** X17. [ReadFrom], on a reader that delivers its bytes in pieces of any
    size and then ends with an error, appends all these bytes to the
    buffer, in order, and returns their number; it reports no error when
    the reader ended with [io.EOF] and the reader's error otherwise.  One
    round of its loop per byte and one more are enough. *)
Theorem X17_ReadFrom (fuel : nat) (r : R) (b : t) (w : World) :
  (length (remaining r) < fuel)%nat ->
  valid_config (config w) -> pool_ok w -> buf_inv (config w) b ->
  exists r' b' w',
    ReadFrom fuel r b w
    = Ok (blen (remaining r), ReadFrom_err final, r', b', w')
    /\ remaining r' = []
    /\ Buffer_contents b' = Buffer_contents b ++ remaining r
    /\ Size b' = Size b + blen (remaining r)
    /\ config w' = config w /\ pool_ok w' /\ buf_inv (config w) b'.
Proof.
  intros Hfuel Hcfg Hok Hinv.
  destruct (ReadFrom_loop_spec fuel r
              (replicate (Z.to_nat ReadFrom_c) "000"%byte) 0 0 b w)
    as (r' & b' & w' & Hrun & Hnil & Hcont & Hrest);
    [exact Hfuel | | unfold ReadFrom_c; lia | assumption | assumption
    | assumption |].
  { unfold blen. rewrite length_replicate. unfold ReadFrom_c. lia. }
  change (Z.to_nat 0) with 0%nat in Hcont. cbn [take app] in Hcont.
  exists r', b', w'. unfold ReadFrom. rewrite Hrun.
  split; [reflexivity |]. split; [exact Hnil |]. split; [exact Hcont |].
  split; [| exact Hrest].
  rewrite !Size_contents, Hcont. apply blen_app.
Qed.

End reading_from.

Lemma list_reader_delivering (step : Z) :
  delivering (Reader0 := list_reader step) (fun r => r) io_EOF.
Proof.
  intros r room Hroom. destruct r as [|x l].
  - exists [], (Some io_EOF), [].
    split; [reflexivity |]. split; [change (blen []) with 0; lia |].
    split; [reflexivity |]. split; [discriminate |].
    intros _. split; reflexivity.
  - set (m := Z.to_nat (Z.min room (Z.max 1 step))).
    exists (take m (x :: l)), None, (drop m (x :: l)).
    split; [reflexivity |].
    split; [unfold blen; rewrite length_take; lia |].
    split; [symmetry; apply take_drop |].
    split; [| intros Hne; exfalso; apply Hne; reflexivity].
    intros _. destruct m as [|k] eqn:E; [lia | discriminate].
Qed.

Lemma X17_ReadFrom_witness :
  exists r' b' w',
    Buffer.ReadFrom (H := exact_growth) (Reader0 := list_reader 1000) 4501
      (replicate 4500 "a"%byte) Buffer.zero init_world
    = Ok (4500, None, r', b', w')
    /\ Buffer_contents b' = replicate 4500 "a"%byte.
Proof.
  destruct (X17_ReadFrom (rd := list_reader 1000) (fun r => r) io_EOF
              (rt := exact_growth) (list_reader_delivering 1000) 4501
              (replicate 4500 "a"%byte) Buffer.zero init_world)
    as (r' & b' & w' & Hrun & _ & Hcont & _).
  - rewrite length_replicate. lia.
  - vm_compute. repeat split; reflexivity.
  - exact init_world_pool_ok.
  - vm_compute. repeat split; discriminate.
  - exists r', b', w'. split; [| exact Hcont].
    rewrite Hrun. f_equal.
Defined.

(** ** The buffer as a writer *)

Section buffer_as_writer.
Import Buffer.
Context {rt : Runtime}.

(** X18. [Write] and [WriteString] keep the contract of [io.Writer] for a
    writer that never fails: they take all of [data], appending it to the
    bytes of the buffer, and return its length and no error; given the same
    bytes, the two leave the same buffer and the same pool behind. *)
Theorem X18_Write_WriteString (fuel : nat) (data : list byte) (b : t)
    (w : World) :
  (length data <= fuel)%nat ->
  valid_config (config w) -> pool_ok w -> buf_inv (config w) b ->
  exists b' w',
    Write fuel data b w = Ok (blen data, None, b', w')
    /\ WriteString fuel data b w = Ok (blen data, None, b', w')
    /\ Buffer_contents b' = Buffer_contents b ++ data
    /\ Size b' = Size b + blen data
    /\ config w' = config w /\ pool_ok w' /\ buf_inv (config w) b'.
Proof.
  intros Hfuel Hcfg Hok Hinv.
  destruct (AppendBytes_ok fuel data b w Hfuel Hcfg Hok Hinv)
    as (b' & w' & Hrun & Hc & Hok' & Hinv' & Hcont).
  assert (Hsame : AppendString fuel data b w = AppendBytes fuel data b w).
  { unfold AppendString, AppendBytes.
    destruct (blen data <=? cap (Buf b) - len (Buf b)); [reflexivity |].
    apply appendStringSlow_eq. }
  exists b', w'. unfold Write, WriteString. monad_simpl.
  rewrite Hsame, Hrun.
  split; [reflexivity |]. split; [reflexivity |]. split; [exact Hcont |].
  split; [rewrite !Size_contents, Hcont; apply blen_app | auto].
Qed.

End buffer_as_writer.

Lemma X18_Write_WriteString_witness :
  exists b' w',
    Buffer.Write (H := exact_growth) 12 hello_world Buffer.zero init_world
    = Ok (12, None, b', w')
    /\ Buffer.WriteString (H := exact_growth) 12 hello_world Buffer.zero
         init_world
       = Ok (12, None, b', w')
    /\ Buffer_contents b' = hello_world.
Proof.
  destruct (X18_Write_WriteString (rt := exact_growth) 12 hello_world
              Buffer.zero init_world)
    as (b' & w' & Hw & Hs & Hcont & _).
  - vm_compute. lia.
  - vm_compute. repeat split; reflexivity.
  - exact init_world_pool_ok.
  - vm_compute. repeat split; discriminate.
  - exists b', w'. split; [exact Hw |]. split; [exact Hs | exact Hcont].
Defined.
